(** * mcp-server-tm-partner: the [search_tm_partner] tool handler

    A shallow embedding of [src/index.ts]: the request router and the
    response formatter of the [CallToolRequestSchema] handler, the three
    text projections, and the API client methods the router calls.

    The handler receives its arguments as [any] and the upstream body as
    [any]; the TypeScript interfaces are erased at run time.  Values are
    therefore modelled as JSON data, with [undefined] as the absence of a
    value, and the handler's reads are property reads on such data, with
    JavaScript's truthiness and string conversion. *)

From Stdlib Require Import String Ascii List ZArith Bool Lia Decimal DecimalZ.
Import ListNotations.
Local Open Scope list_scope.
Local Open Scope string_scope.

(** ** Characters that cannot be typed inside a string literal *)

Definition nl : string := String "010"%char EmptyString.
Definition dquote : string := String "034"%char EmptyString.

(** ** Decimal printing of integers (Number::toString on integers) *)

Module Dec.

Fixpoint uint_to_string (d : Decimal.uint) : string :=
  match d with
  | Nil => EmptyString
  | D0 d => String "0" (uint_to_string d)
  | D1 d => String "1" (uint_to_string d)
  | D2 d => String "2" (uint_to_string d)
  | D3 d => String "3" (uint_to_string d)
  | D4 d => String "4" (uint_to_string d)
  | D5 d => String "5" (uint_to_string d)
  | D6 d => String "6" (uint_to_string d)
  | D7 d => String "7" (uint_to_string d)
  | D8 d => String "8" (uint_to_string d)
  | D9 d => String "9" (uint_to_string d)
  end.

Definition int_to_string (d : Decimal.int) : string :=
  match d with
  | Pos u => uint_to_string u
  | Neg u => String "-" (uint_to_string u)
  end.

Definition Z_to_string (z : Z) : string := int_to_string (Z.to_int z).

Definition digit_of (c : ascii) : option (Decimal.uint -> Decimal.uint) :=
  if Ascii.eqb c "0" then Some D0 else
  if Ascii.eqb c "1" then Some D1 else
  if Ascii.eqb c "2" then Some D2 else
  if Ascii.eqb c "3" then Some D3 else
  if Ascii.eqb c "4" then Some D4 else
  if Ascii.eqb c "5" then Some D5 else
  if Ascii.eqb c "6" then Some D6 else
  if Ascii.eqb c "7" then Some D7 else
  if Ascii.eqb c "8" then Some D8 else
  if Ascii.eqb c "9" then Some D9 else None.

Definition is_digit (c : ascii) : bool :=
  match digit_of c with Some _ => true | None => false end.

(** The longest prefix of digits, and what follows it. *)
Fixpoint lex_digits (s : string) : Decimal.uint * string :=
  match s with
  | EmptyString => (Nil, EmptyString)
  | String c r =>
      match digit_of c with
      | Some f => let (d, rest) := lex_digits r in (f d, rest)
      | None => (Nil, s)
      end
  end.

(** An optional sign and at least one digit. *)
Definition lex_int (s : string) : option (Z * string) :=
  match s with
  | String "-" r =>
      match lex_digits r with
      | (Nil, _) => None
      | (d, rest) => Some (Z.of_int (Neg d), rest)
      end
  | _ =>
      match lex_digits s with
      | (Nil, _) => None
      | (d, rest) => Some (Z.of_int (Pos d), rest)
      end
  end.

(** A canonical array index: the decimal numeral of a natural number. *)
Definition index_of_key (k : string) : option nat :=
  match lex_digits k with
  | (d, EmptyString) =>
      let n := Nat.of_uint d in
      if String.eqb (Z_to_string (Z.of_nat n)) k then Some n else None
  | _ => None
  end.

End Dec.

(** ** The host: numbers, engine messages, the SDK's error class *)

(** Characters that may continue a JSON number. *)
Definition number_char (c : ascii) : bool :=
  Dec.is_digit c || Ascii.eqb c "." || Ascii.eqb c "e" || Ascii.eqb c "E"
  || Ascii.eqb c "+" || Ascii.eqb c "-".

Definition number_start (c : ascii) : bool :=
  Dec.is_digit c || Ascii.eqb c "-".

(** [rest] does not continue a number that ends just before it. *)
Definition number_boundary (rest : string) : bool :=
  match rest with
  | EmptyString => true
  | String c _ => negb (number_char c)
  end.

(** The numbers of the engine: the doubles, among them the infinities (an
    overflowing literal of a payload is read as one), NaN and negative
    zero.  [index.ts] never computes with them: it prints them in template
    literals ([num_to_string], Number::toString) and in [JSON.stringify]
    (which writes [null] for a number that is not finite), tests them
    ([num_truthy]) and compares a [length] with zero ([num_gt0]).
    [num_of_Z] is the number of an integer: a length, a literal of the
    source.  [num_parse] reads a JSON number; it inverts the printing of
    every finite number other than negative zero, which is printed as [0]
    (ECMA-262, Number::toString, note 1). *)
Class JSNumber (num : Type) := {
  num_of_Z : Z -> num;
  num_truthy : num -> bool;
  num_gt0 : num -> bool;
  num_is_finite : num -> bool;
  num_is_negative_zero : num -> bool;
  num_to_string : num -> string;
  num_parse : string -> option (num * string);
  num_gt0_of_Z : forall z, num_gt0 (num_of_Z z) = (0 <? z)%Z;
  num_to_string_head :
    forall n, num_is_finite n = true ->
      exists c s, num_to_string n = String c s /\ number_start c = true;
  num_parse_to_string :
    forall n rest,
      num_is_finite n = true -> num_is_negative_zero n = false ->
      number_boundary rest = true ->
      num_parse (num_to_string n ++ rest) = Some (n, rest)
}.

(** The TypeErrors the engine can raise on the handler's operations.
    [NotAFunction] holds the callee as the source writes it. *)
Inductive type_error : Type :=
| CannotDestructure (is_null : bool)
| CannotReadProperty (is_null : bool) (key : string)
| NotAFunction (callee : string)
| CannotConvertToPrimitive.

(** [ErrorCode] of the MCP SDK, the members [index.ts] uses. *)
Inductive ErrorCode : Type := InvalidParams | MethodNotFound | InternalError.

(** What the source leaves to its host: the text of the engine's
    TypeErrors, the comparison [ToNumber(s) > 0] on a string, and how the
    SDK's [McpError] constructor derives [error.message] from the code and
    the text it is given. *)
Class Host := {
  engine_message : type_error -> string;
  string_gt0 : string -> bool;
  mcp_message : ErrorCode -> string -> string
}.

(** ** JSON values *)

Section Values.

Context {num : Type}.

Unset Elimination Schemes.
Inductive json : Type :=
| JNull
| JBool (b : bool)
| JNum (n : num)
| JStr (s : string)
| JArr (items : list json)
| JObj (props : list (string * json)).
Set Elimination Schemes.

(** A JavaScript value as the handler sees it: [None] is [undefined]. *)
Definition jsval : Type := option json.

Section JsonInd.
Variable P : json -> Prop.
Hypothesis Hnull : P JNull.
Hypothesis Hbool : forall b, P (JBool b).
Hypothesis Hnum : forall n, P (JNum n).
Hypothesis Hstr : forall s, P (JStr s).
Hypothesis Harr : forall items, Forall P items -> P (JArr items).
Hypothesis Hobj :
  forall props, Forall (fun kv => P (snd kv)) props -> P (JObj props).

Fixpoint json_ind (v : json) : P v :=
  match v with
  | JNull => Hnull
  | JBool b => Hbool b
  | JNum n => Hnum n
  | JStr s => Hstr s
  | JArr items =>
      Harr items
        ((fix go (l : list json) : Forall P l :=
            match l with
            | [] => Forall_nil P
            | x :: r => Forall_cons x (json_ind x) (go r)
            end) items)
  | JObj props =>
      Hobj props
        ((fix go (l : list (string * json)) : Forall (fun kv => P (snd kv)) l :=
            match l with
            | [] => Forall_nil _
            | kv :: r => Forall_cons kv (json_ind (snd kv)) (go r)
            end) props)
  end.
End JsonInd.

(** Own property lookup in an object's property list. *)
Fixpoint lookup (k : string) (props : list (string * json)) : jsval :=
  match props with
  | [] => None
  | (k', v) :: r => if String.eqb k k' then Some v else lookup k r
  end.

Definition has_key (k : string) (props : list (string * json)) : bool :=
  match lookup k props with Some _ => true | None => false end.

End Values.

Arguments json num : clear implicits.
Arguments jsval num : clear implicits.

(** ** Evaluation of the handler's expressions *)

Section Semantics.

Context {num : Type} {NumOps : JSNumber num} {HostOps : Host}.

#[local] Abbreviation json := (json num).
#[local] Abbreviation jsval := (jsval num).

Record http_response : Type := {
  status : Z;
  statusText : string;
  data : json
}.

(** What a [catch] clause can receive.  An axios error carries
    [error.response] when the upstream answered with a status outside 2xx,
    and only [error.request] when no answer came; a [McpError] keeps the code
    and the text it was built from; a [TypeError] comes from the engine. *)
Inductive js_error : Type :=
| AxiosResponseError (response : http_response)
| AxiosRequestError
| McpError (code : ErrorCode) (message : string)
| TypeError (e : type_error).

(** Computations that return or throw. *)
Definition R (A : Type) : Type := (js_error + A)%type.

Definition ret {A} (a : A) : R A := inr a.
Definition throw {A} (e : js_error) : R A := inl e.
Definition bind {A B} (m : R A) (k : A -> R B) : R B :=
  match m with
  | inl e => inl e
  | inr a => k a
  end.

#[local] Notation "x <- m ;; k" := (bind m (fun x => k))
  (at level 61, m at next level, right associativity).

Fixpoint mapM {A B} (f : A -> R B) (l : list A) : R (list B) :=
  match l with
  | [] => ret []
  | x :: r => y <- f x ;; ys <- mapM f r ;; ret (y :: ys)
  end.

(** [ToBoolean]. *)
Definition truthy (v : jsval) : bool :=
  match v with
  | None => false
  | Some JNull => false
  | Some (JBool b) => b
  | Some (JNum n) => num_truthy n
  | Some (JStr s) => negb (String.eqb s "")
  | Some (JArr _) => true
  | Some (JObj _) => true
  end.

(** [a || b]. *)
Definition or_else (a b : jsval) : jsval := if truthy a then a else b.

(** [v === s] for a string literal [s]. *)
Definition is_str (s : string) (v : jsval) : bool :=
  match v with
  | Some (JStr s') => String.eqb s' s
  | _ => false
  end.

(** [ToString] on JSON data.  An array is joined with commas, a [null]
    element giving the empty string; a plain object gives
    ["[object Object]"], unless it has an own property [toString], which
    (being data, not a function) leaves no conversion method that returns
    a primitive. *)
Fixpoint to_string (v : json) : R string :=
  match v with
  | JNull => ret "null"
  | JBool true => ret "true"
  | JBool false => ret "false"
  | JNum n => ret (num_to_string n)
  | JStr s => ret s
  | JArr items =>
      ss <- (fix elems (l : list json) : R (list string) :=
               match l with
               | [] => ret []
               | x :: r =>
                   s <- match x with JNull => ret "" | _ => to_string x end ;;
                   ss <- elems r ;;
                   ret (s :: ss)
               end) items ;;
      ret (String.concat "," ss)
  | JObj props =>
      if has_key "toString" props
      then throw (TypeError CannotConvertToPrimitive)
      else ret "[object Object]"
  end.

(** The conversion a template literal applies to a substitution. *)
Definition to_string_val (v : jsval) : R string :=
  match v with
  | None => ret "undefined"
  | Some j => to_string j
  end.

(** [v.k]: a property read.  Reading from [undefined] or [null] throws.
    Arrays and strings have [length] and their indices.  Prototype members
    are functions: none has a name that [index.ts] reads as a property, and
    the two it calls as methods are modelled apart ([array_map_join],
    [array_find_primary]). *)
Definition get (v : jsval) (k : string) : R jsval :=
  match v with
  | None => throw (TypeError (CannotReadProperty false k))
  | Some JNull => throw (TypeError (CannotReadProperty true k))
  | Some (JBool _) => ret None
  | Some (JNum _) => ret None
  | Some (JStr s) =>
      if String.eqb k "length"
      then ret (Some (JNum (num_of_Z (Z.of_nat (String.length s)))))
      else match Dec.index_of_key k with
           | Some i =>
               match String.get i s with
               | Some c => ret (Some (JStr (String c EmptyString)))
               | None => ret None
               end
           | None => ret None
           end
  | Some (JArr items) =>
      if String.eqb k "length"
      then ret (Some (JNum (num_of_Z (Z.of_nat (List.length items)))))
      else match Dec.index_of_key k with
           | Some i => ret (nth_error items i)
           | None => ret None
           end
  | Some (JObj props) => ret (lookup k props)
  end.

(** [v?.k]. *)
Definition opt_get (v : jsval) (k : string) : R jsval :=
  match v with
  | None => ret None
  | Some JNull => ret None
  | _ => get v k
  end.

(** [v > 0]: [ToPrimitive] with hint number, then [ToNumber]. *)
Definition gt0 (v : jsval) : R bool :=
  match v with
  | None => ret false
  | Some JNull => ret false
  | Some (JBool b) => ret b
  | Some (JNum n) => ret (num_gt0 n)
  | Some (JStr s) => ret (string_gt0 s)
  | Some j => s <- to_string j ;; ret (string_gt0 s)
  end.

(** [v && v.length > 0]. *)
Definition nonempty (v : jsval) : R bool :=
  if truthy v then len <- get v "length" ;; gt0 len else ret false.

(** [items.find(c => c.primary)] on the elements of an array. *)
Fixpoint find_primary (items : list json) : R jsval :=
  match items with
  | [] => ret None
  | c :: r =>
      p <- get (Some c) "primary" ;;
      if truthy p then ret (Some c) else find_primary r
  end.

(** [attraction.classifications.find(c => c.primary)]: only an array has
    a [find] to call. *)
Definition array_find_primary (v : jsval) : R jsval :=
  match v with
  | Some (JArr items) => find_primary items
  | _ => throw (TypeError (NotAFunction "attraction.classifications.find"))
  end.

(** [v.map(f).join(sep)], where the source writes [v] as [path]: only an
    array has a [map] to call. *)
Definition array_map_join (path : string) (f : jsval -> R string)
  (sep : string) (v : jsval) : R string :=
  match v with
  | Some (JArr items) =>
      ss <- mapM (fun x => f (Some x)) items ;;
      ret (String.concat sep ss)
  | _ => throw (TypeError (NotAFunction (path ++ ".map")))
  end.

End Semantics.

Arguments http_response num : clear implicits.
Arguments js_error num : clear implicits.
Arguments R num A : clear implicits.

Notation "x <- m ;; k" := (bind m (fun x => k))
  (at level 61, m at next level, right associativity).

(** ** The text projections (index.ts, lines 219-287) *)

Section Formatter.

Context {num : Type} {NumOps : JSNumber num} {HostOps : Host}.

#[local] Abbreviation json := (json num).
#[local] Abbreviation jsval := (jsval num).
#[local] Abbreviation R := (R num).
#[local] Abbreviation http_response := (http_response num).
#[local] Abbreviation js_error := (js_error num).

(** [lines.push(l)]. *)
Definition push {A} (lines : list A) (l : A) : list A := (lines ++ [l])%list.

(** [lines.push(l)] when [cond], on the list of lines built so far. *)
Definition push_if (cond : bool) (lines : list string) (l : R string)
  : R (list string) :=
  if cond then x <- l ;; ret (push lines x) else ret lines.

(** [formatEventAsText].  Property reads have no effect, so a path the
    source reads twice ([event.dates.start], [event._embedded.venues],
    [venue.city.name], ...) is bound once. *)
Definition formatEventAsText (event : jsval) : R string :=
  name <- get event "name" ;;
  name_s <- to_string_val name ;;
  id <- get event "id" ;;
  id_s <- to_string_val id ;;
  let lines := ["Event: " ++ name_s ++ " (ID: " ++ id_s ++ ")"] in
  (* if (event.dates?.start) *)
  dates <- get event "dates" ;;
  start <- opt_get dates "start" ;;
  lines <- push_if (truthy start) lines
    (localDate <- get start "localDate" ;;
     localTime <- get start "localTime" ;;
     date_s <- to_string_val (or_else localDate (Some (JStr "TBD"))) ;;
     time_s <- to_string_val (or_else localTime (Some (JStr "TBD"))) ;;
     ret ("Date/Time: " ++ date_s ++ " at " ++ time_s)) ;;
  (* if (event._embedded?.venues && event._embedded.venues.length > 0) *)
  embedded <- get event "_embedded" ;;
  venues <- opt_get embedded "venues" ;;
  has_venues <- nonempty venues ;;
  lines <-
    (if has_venues then
       venue <- get venues "0" ;;
       venue_name <- get venue "name" ;;
       venue_name_s <- to_string_val venue_name ;;
       let lines := push lines ("Venue: " ++ venue_name_s) in
       city <- get venue "city" ;;
       city_name <- opt_get city "name" ;;
       push_if (truthy city_name) lines
         (city_s <- to_string_val city_name ;;
          state <- get venue "state" ;;
          suffix <-
            (if truthy state then
               stateCode <- get state "stateCode" ;;
               code_s <- to_string_val stateCode ;;
               ret (", " ++ code_s)
             else ret "") ;;
          ret ("Location: " ++ city_s ++ suffix))
     else ret lines) ;;
  (* if (event.priceRanges && event.priceRanges.length > 0) *)
  priceRanges <- get event "priceRanges" ;;
  has_prices <- nonempty priceRanges ;;
  lines <- push_if has_prices lines
    (range <- get priceRanges "0" ;;
     min <- get range "min" ;;
     min_s <- to_string_val min ;;
     max <- get range "max" ;;
     max_s <- to_string_val max ;;
     currency <- get range "currency" ;;
     currency_s <- to_string_val currency ;;
     ret ("Price Range: $" ++ min_s ++ " - $" ++ max_s ++ " " ++ currency_s)) ;;
  (* if (event.url) *)
  url <- get event "url" ;;
  lines <- push_if (truthy url) lines
    (url_s <- to_string_val url ;; ret ("URL: " ++ url_s)) ;;
  ret (String.concat nl lines).

(** [formatVenueAsText]. *)
Definition formatVenueAsText (venue : jsval) : R string :=
  name <- get venue "name" ;;
  name_s <- to_string_val name ;;
  id <- get venue "id" ;;
  id_s <- to_string_val id ;;
  let lines := ["Venue: " ++ name_s ++ " (ID: " ++ id_s ++ ")"] in
  (* if (venue.address?.line1) *)
  address <- get venue "address" ;;
  line1 <- opt_get address "line1" ;;
  lines <- push_if (truthy line1) lines
    (line1_s <- to_string_val line1 ;; ret ("Address: " ++ line1_s)) ;;
  (* if (venue.city?.name) *)
  city <- get venue "city" ;;
  city_name <- opt_get city "name" ;;
  lines <- push_if (truthy city_name) lines
    (let location := [city_name] in
     state <- get venue "state" ;;
     stateCode <- opt_get state "stateCode" ;;
     let location :=
       if truthy stateCode then push location stateCode else location in
     country <- get venue "country" ;;
     countryCode <- opt_get country "countryCode" ;;
     let location :=
       if truthy countryCode then push location countryCode else location in
     parts <- mapM to_string_val location ;;
     ret ("Location: " ++ String.concat ", " parts)) ;;
  (* if (venue.url) *)
  url <- get venue "url" ;;
  lines <- push_if (truthy url) lines
    (url_s <- to_string_val url ;; ret ("URL: " ++ url_s)) ;;
  ret (String.concat nl lines).

(** [formatAttractionAsText]. *)
Definition formatAttractionAsText (attraction : jsval) : R string :=
  name <- get attraction "name" ;;
  name_s <- to_string_val name ;;
  id <- get attraction "id" ;;
  id_s <- to_string_val id ;;
  let lines := ["Attraction: " ++ name_s ++ " (ID: " ++ id_s ++ ")"] in
  (* if (attraction.classifications && attraction.classifications.length > 0) *)
  classifications <- get attraction "classifications" ;;
  has_classes <- nonempty classifications ;;
  lines <-
    (if has_classes then
       found <- array_find_primary classifications ;;
       primary <-
         (if truthy found then ret found else get classifications "0") ;;
       let classInfo := [] in
       segment <- get primary "segment" ;;
       segment_name <- opt_get segment "name" ;;
       let classInfo :=
         if truthy segment_name then push classInfo segment_name else classInfo in
       genre <- get primary "genre" ;;
       genre_name <- opt_get genre "name" ;;
       let classInfo :=
         if truthy genre_name then push classInfo genre_name else classInfo in
       push_if (0 <? List.length classInfo)%nat lines
         (parts <- mapM to_string_val classInfo ;;
          ret ("Classification: " ++ String.concat " - " parts))
     else ret lines) ;;
  (* if (attraction.url) *)
  url <- get attraction "url" ;;
  lines <- push_if (truthy url) lines
    (url_s <- to_string_val url ;; ret ("URL: " ++ url_s)) ;;
  ret (String.concat nl lines).

End Formatter.

(** ** [JSON.stringify(value, null, 2)] *)

Section Stringify.

Context {num : Type} {NumOps : JSNumber num}.

#[local] Abbreviation json := (json num).

Definition backslash : ascii := "092"%char.

Definition hex_digit (n : nat) : ascii :=
  match n with
  | 0 => "0" | 1 => "1" | 2 => "2" | 3 => "3" | 4 => "4" | 5 => "5"
  | 6 => "6" | 7 => "7" | 8 => "8" | 9 => "9" | 10 => "a" | 11 => "b"
  | 12 => "c" | 13 => "d" | 14 => "e" | _ => "f"
  end%char.

(** QuoteJSONString, one code unit: the quote, the backslash and the
    control characters are escaped, everything else is copied. *)
Definition escape_char (c : ascii) : string :=
  let n := nat_of_ascii c in
  if Ascii.eqb c "034" then String backslash dquote
  else if Ascii.eqb c backslash then String backslash (String backslash "")
  else if Ascii.eqb c "008" then String backslash "b"
  else if Ascii.eqb c "009" then String backslash "t"
  else if Ascii.eqb c "010" then String backslash "n"
  else if Ascii.eqb c "012" then String backslash "f"
  else if Ascii.eqb c "013" then String backslash "r"
  else if (n <? 32)%nat then
    String backslash
      (String "u" (String "0" (String "0"
        (String (hex_digit (n / 16)) (String (hex_digit (n mod 16)) "")))))
  else String c "".

Fixpoint escape (s : string) : string :=
  match s with
  | EmptyString => EmptyString
  | String c r => escape_char c ++ escape r
  end.

Definition quote (s : string) : string := dquote ++ escape s ++ dquote.

(** The [gap] of [JSON.stringify(_, null, 2)]. *)
Definition gap : string := "  ".

(** SerializeJSONProperty at the current [indent].  Every value of the
    model is data, so no property is skipped and no [toJSON] is called; a
    number that is not finite is written as [null]. *)
Fixpoint serialize (indent : string) (v : json) : string :=
  match v with
  | JNull => "null"
  | JBool true => "true"
  | JBool false => "false"
  | JNum n => if num_is_finite n then num_to_string n else "null"
  | JStr s => quote s
  | JArr [] => "[]"
  | JArr items =>
      let stepback := indent in
      let indent := indent ++ gap in
      "[" ++ nl ++ indent
        ++ String.concat ("," ++ nl ++ indent)
             (map (fun x => serialize indent x) items)
        ++ nl ++ stepback ++ "]"
  | JObj [] => "{}"
  | JObj props =>
      let stepback := indent in
      let indent := indent ++ gap in
      "{" ++ nl ++ indent
        ++ String.concat ("," ++ nl ++ indent)
             (map (fun kv => quote (fst kv) ++ ": " ++ serialize indent (snd kv))
                  props)
        ++ nl ++ stepback ++ "}"
  end.

Definition JSON_stringify (v : json) : string := serialize "" v.

End Stringify.

(** ** The API client and the tool handler (index.ts, lines 126-216, 408-573) *)

Section Handler.

Context {num : Type} {NumOps : JSNumber num} {HostOps : Host}.

#[local] Abbreviation json := (json num).
#[local] Abbreviation jsval := (jsval num).
#[local] Abbreviation R := (R num).
#[local] Abbreviation http_response := (http_response num).
#[local] Abbreviation js_error := (js_error num).

(** [axiosInstance.get(url, { params })]: the base URL, the headers and the
    credentials are fixed at construction and the same for every call. *)
Record http_request : Type := {
  url : string;
  params : option (list (string * jsval))
}.

(** Computations that may call the client: the calls of
    [axiosInstance.get] made so far are threaded through, in their order,
    and the computation returns or throws. *)
Definition Eff (A : Type) : Type :=
  list http_request -> list http_request * R A.

Definition eret {A} (a : A) : Eff A := fun log => (log, ret a).
Definition ethrow {A} (e : js_error) : Eff A := fun log => (log, throw e).
Definition lift {A} (m : R A) : Eff A := fun log => (log, m).
Definition ebind {A B} (m : Eff A) (k : A -> Eff B) : Eff B :=
  fun log =>
    match m log with
    | (log', inl e) => (log', inl e)
    | (log', inr a) => k a log'
    end.

(** [try { m } catch (error) { h error }]. *)
Definition try_catch {A} (m : Eff A) (h : js_error -> Eff A) : Eff A :=
  fun log =>
    match m log with
    | (log', inl e) => h e log'
    | (log', inr a) => (log', inr a)
    end.

#[local] Notation "x <~ m ;; k" := (ebind m (fun x => k))
  (at level 61, m at next level, right associativity).

(** The network, as axios reports it for a call: the response, or [None]
    when none arrives.  An error axios raises while it builds a request
    (a URL or a parameter it cannot encode) is not among the outcomes. *)
Variable transport : http_request -> option http_response.

(** axios' default [validateStatus]. *)
Definition validateStatus (status : Z) : bool :=
  ((200 <=? status) && (status <? 300))%Z.

(** [await this.axiosInstance.get(url, { params })], then [response.data]:
    the call is recorded, and axios resolves on a 2xx status and rejects
    otherwise. *)
Definition axios_get (url : string) (params : option (list (string * jsval)))
  : Eff json :=
  fun log =>
    let req := {| url := url; params := params |} in
    let log := (log ++ [req])%list in
    match transport req with
    | None => (log, throw AxiosRequestError)
    | Some response =>
        if validateStatus (status response)
        then (log, ret (data response))
        else (log, throw (AxiosResponseError response))
    end.

Definition searchEvents (params : list (string * jsval)) : Eff json :=
  axios_get "/events" (Some params).

Definition getEvent (id : jsval) (params : option (list (string * jsval)))
  : Eff json :=
  id_s <~ lift (to_string_val id) ;;
  axios_get ("/events/" ++ id_s) params.

Definition searchVenues (params : list (string * jsval)) : Eff json :=
  axios_get "/venues" (Some params).

Definition getVenue (id : jsval) (params : option (list (string * jsval)))
  : Eff json :=
  id_s <~ lift (to_string_val id) ;;
  axios_get ("/venues/" ++ id_s) params.

Definition searchAttractions (params : list (string * jsval)) : Eff json :=
  axios_get "/attractions" (Some params).

Definition getAttraction (id : jsval) (params : option (list (string * jsval)))
  : Eff json :=
  id_s <~ lift (to_string_val id) ;;
  axios_get ("/attractions/" ++ id_s) params.

(** The variables the handler destructures from [args] (lines 413-433). *)
Record tool_args : Type := {
  arg_type : jsval;
  arg_keyword : jsval;
  arg_eventId : jsval;
  arg_venueId : jsval;
  arg_attractionId : jsval;
  arg_startDateTime : jsval;
  arg_endDateTime : jsval;
  arg_city : jsval;
  arg_stateCode : jsval;
  arg_countryCode : jsval;
  arg_postalCode : jsval;
  arg_latlong : jsval;
  arg_radius : jsval;
  arg_unit : jsval;
  arg_classificationName : jsval;
  arg_size : jsval;
  arg_page : jsval;
  arg_sort : jsval;
  arg_format : jsval
}.

(** [x = d] in a destructuring pattern: the default replaces [undefined]. *)
Definition with_default (v : jsval) (d : json) : jsval :=
  match v with
  | None => Some d
  | Some _ => v
  end.

(** [const { type, keyword, ..., format = 'json' } = args as any]. *)
Definition destructure (args : jsval) : R tool_args :=
  match args with
  | None => throw (TypeError (CannotDestructure false))
  | Some JNull => throw (TypeError (CannotDestructure true))
  | _ =>
      type <- get args "type" ;;
      keyword <- get args "keyword" ;;
      eventId <- get args "eventId" ;;
      venueId <- get args "venueId" ;;
      attractionId <- get args "attractionId" ;;
      startDateTime <- get args "startDateTime" ;;
      endDateTime <- get args "endDateTime" ;;
      city <- get args "city" ;;
      stateCode <- get args "stateCode" ;;
      countryCode <- get args "countryCode" ;;
      postalCode <- get args "postalCode" ;;
      latlong <- get args "latlong" ;;
      radius <- get args "radius" ;;
      unit <- get args "unit" ;;
      classificationName <- get args "classificationName" ;;
      size <- get args "size" ;;
      page <- get args "page" ;;
      sort <- get args "sort" ;;
      format <- get args "format" ;;
      ret {| arg_type := type;
             arg_keyword := keyword;
             arg_eventId := eventId;
             arg_venueId := venueId;
             arg_attractionId := attractionId;
             arg_startDateTime := startDateTime;
             arg_endDateTime := endDateTime;
             arg_city := city;
             arg_stateCode := stateCode;
             arg_countryCode := countryCode;
             arg_postalCode := postalCode;
             arg_latlong := latlong;
             arg_radius := radius;
             arg_unit := unit;
             arg_classificationName := classificationName;
             arg_size := with_default size (JNum (num_of_Z 20));
             arg_page := with_default page (JNum (num_of_Z 0));
             arg_sort := sort;
             arg_format := with_default format (JStr "json") |}
  end.

(** The object literals passed to the three search methods. *)
Definition event_search_params (a : tool_args) : list (string * jsval) :=
  [ ("keyword", arg_keyword a);
    ("attractionId", arg_attractionId a);
    ("venueId", arg_venueId a);
    ("postalCode", arg_postalCode a);
    ("latlong", arg_latlong a);
    ("radius", arg_radius a);
    ("unit", arg_unit a);
    ("startDateTime", arg_startDateTime a);
    ("endDateTime", arg_endDateTime a);
    ("size", arg_size a);
    ("page", arg_page a);
    ("sort", arg_sort a);
    ("city", arg_city a);
    ("countryCode", arg_countryCode a);
    ("stateCode", arg_stateCode a);
    ("classificationName", arg_classificationName a) ].

Definition venue_search_params (a : tool_args) : list (string * jsval) :=
  [ ("keyword", arg_keyword a);
    ("size", arg_size a);
    ("page", arg_page a);
    ("sort", arg_sort a);
    ("city", arg_city a);
    ("countryCode", arg_countryCode a);
    ("stateCode", arg_stateCode a);
    ("postalCode", arg_postalCode a);
    ("latlong", arg_latlong a);
    ("radius", arg_radius a);
    ("unit", arg_unit a) ].

Definition attraction_search_params (a : tool_args) : list (string * jsval) :=
  [ ("keyword", arg_keyword a);
    ("size", arg_size a);
    ("page", arg_page a);
    ("sort", arg_sort a);
    ("classificationName", arg_classificationName a) ].

(** Lines 437-501: the choice of the upstream call. *)
Definition route (a : tool_args) : Eff json :=
  if is_str "event" (arg_type a) then
    if truthy (arg_eventId a)
    then getEvent (arg_eventId a) None
    else searchEvents (event_search_params a)
  else if is_str "venue" (arg_type a) then
    if truthy (arg_venueId a) && negb (truthy (arg_keyword a))
    then getVenue (arg_venueId a) None
    else searchVenues (venue_search_params a)
  else if is_str "attraction" (arg_type a) then
    if truthy (arg_attractionId a) && negb (truthy (arg_keyword a))
    then getAttraction (arg_attractionId a) None
    else searchAttractions (attraction_search_params a)
  else
    type_s <~ lift (to_string_val (arg_type a)) ;;
    ethrow (McpError InvalidParams
              ("Invalid search type: " ++ type_s
               ++ ". Must be 'event', 'venue', or 'attraction'.")).

Definition separator : string := nl ++ nl ++ "---" ++ nl ++ nl.

(** Lines 505-531: [textOutput]. *)
Definition text_output (type : jsval) (results : json) : R string :=
  embedded <- get (Some results) "_embedded" ;;
  if truthy embedded then
    events <- get embedded "events" ;;
    if truthy events
    then array_map_join "results._embedded.events"
           formatEventAsText separator events
    else
      venues <- get embedded "venues" ;;
      if truthy venues
      then array_map_join "results._embedded.venues"
             formatVenueAsText separator venues
      else
        attractions <- get embedded "attractions" ;;
        if truthy attractions
        then array_map_join "results._embedded.attractions"
               formatAttractionAsText separator attractions
        else ret ""
  else
    if is_str "event" type then formatEventAsText (Some results)
    else if is_str "venue" type then formatVenueAsText (Some results)
    else if is_str "attraction" type then formatAttractionAsText (Some results)
    else ret "".

Record text_content : Type := { content_type : string; text : string }.
Record tool_result : Type := { content : list text_content }.

Definition text_result (s : string) : tool_result :=
  {| content := [ {| content_type := "text"; text := s |} ] |}.

(** Lines 504-551: the output in the requested format. *)
Definition render (a : tool_args) (results : json) : R tool_result :=
  if is_str "text" (arg_format a) then
    textOutput <- text_output (arg_type a) results ;;
    ret (text_result
           (if String.eqb textOutput "" then "No results found." else textOutput))
  else
    ret (text_result (JSON_stringify results)).

Definition search_tm_partner (args : jsval) : Eff tool_result :=
  a <~ lift (destructure args) ;;
  results <~ route a ;;
  lift (render a results).

(** Lines 555-572: the [catch] clause. *)
Definition on_error (error : js_error) : R tool_result :=
  match error with
  | AxiosResponseError response =>
      let status_s := Dec.Z_to_string (status response) in
      message <- opt_get (Some (data response)) "message" ;;
      detail <- to_string_val (or_else message (Some (JStr (statusText response)))) ;;
      throw (McpError InternalError
               ("Ticketmaster Partner API error: " ++ status_s ++ " - " ++ detail))
  | AxiosRequestError =>
      throw (McpError InternalError "No response from Ticketmaster Partner API")
  | McpError code message =>
      throw (McpError InternalError ("Error: " ++ mcp_message code message))
  | TypeError e =>
      throw (McpError InternalError ("Error: " ++ engine_message e))
  end.

Record tool_request : Type := { name : string; arguments : jsval }.

(** The [CallToolRequestSchema] handler. *)
Definition handle_call (request : tool_request) : Eff tool_result :=
  try_catch
    (if String.eqb (name request) "search_tm_partner"
     then search_tm_partner (arguments request)
     else ethrow (McpError MethodNotFound ("Unknown tool: " ++ name request)))
    (fun error => lift (on_error error)).

(** One invocation, from an empty log: the requests sent and the outcome. *)
Definition invoke (request : tool_request) : list http_request * R tool_result :=
  handle_call request [].

End Handler.

(** ** Reading JSON text back ([JSON.parse])

    [index.ts] only writes JSON; the reader is what a caller applies to the
    returned text.  Strings are sequences of 8-bit code units here, so a
    [\u] escape above [00ff] is outside the model and is refused. *)

Section Parse.

Context {num : Type} {NumOps : JSNumber num}.

#[local] Abbreviation json := (json num).
#[local] Abbreviation jsval := (jsval num).

Definition is_ws (c : ascii) : bool :=
  Ascii.eqb c " " || Ascii.eqb c "009" || Ascii.eqb c "010" || Ascii.eqb c "013".

Fixpoint skip_ws (s : string) : string :=
  match s with
  | EmptyString => EmptyString
  | String c r => if is_ws c then skip_ws r else s
  end.

Definition unhex (c : ascii) : option nat :=
  let n := nat_of_ascii c in
  if (48 <=? n)%nat && (n <=? 57)%nat then Some (n - 48)
  else if (97 <=? n)%nat && (n <=? 102)%nat then Some (n - 87)
  else if (65 <=? n)%nat && (n <=? 70)%nat then Some (n - 55)
  else None.

Definition unhex4 (a b c d : ascii) : option ascii :=
  match unhex a, unhex b, unhex c, unhex d with
  | Some 0, Some 0, Some h, Some l => Some (ascii_of_nat (16 * h + l))
  | _, _, _, _ => None
  end.

(** The character a one-letter escape stands for. *)
Definition unescape (c : ascii) : option ascii :=
  if Ascii.eqb c "034" then Some "034"%char
  else if Ascii.eqb c backslash then Some backslash
  else if Ascii.eqb c "/" then Some "/"%char
  else if Ascii.eqb c "b" then Some "008"%char
  else if Ascii.eqb c "t" then Some "009"%char
  else if Ascii.eqb c "n" then Some "010"%char
  else if Ascii.eqb c "f" then Some "012"%char
  else if Ascii.eqb c "r" then Some "013"%char
  else None.

Definition cons_char (c : ascii) (r : option (string * string))
  : option (string * string) :=
  match r with
  | Some (s, rest) => Some (String c s, rest)
  | None => None
  end.

(** The characters of a string literal after its opening quote, up to the
    closing quote. *)
Fixpoint parse_string_body (s : string) : option (string * string) :=
  match s with
  | EmptyString => None
  | String c r =>
      if Ascii.eqb c "034" then Some (EmptyString, r)
      else if Ascii.eqb c backslash then
        match r with
        | String "u" (String h1 (String h2 (String h3 (String h4 r')))) =>
            match unhex4 h1 h2 h3 h4 with
            | Some x => cons_char x (parse_string_body r')
            | None => None
            end
        | String e r' =>
            match unescape e with
            | Some x => cons_char x (parse_string_body r')
            | None => None
            end
        | EmptyString => None
        end
      else if (nat_of_ascii c <? 32)%nat then None
      else cons_char c (parse_string_body r)
  end.

(** [literal ++ rest'] read off the front of [s]. *)
Fixpoint expect (literal s : string) : option string :=
  match literal, s with
  | EmptyString, _ => Some s
  | String a l, String b r => if Ascii.eqb a b then expect l r else None
  | String _ _, EmptyString => None
  end.

(** CreateDataProperty on the properties read so far: a repeated key keeps
    its place and takes the later value. *)
Fixpoint set_prop (k : string) (v : json) (props : list (string * json))
  : list (string * json) :=
  match props with
  | [] => [(k, v)]
  | (k', v') :: r =>
      if String.eqb k k' then (k, v) :: r else (k', v') :: set_prop k v r
  end.

Definition build_object (members : list (string * json)) : json :=
  JObj (fold_left (fun acc kv => set_prop (fst kv) (snd kv) acc) members []).

Fixpoint parse_value (fuel : nat) (s : string) : option (json * string) :=
  match fuel with
  | O => None
  | S fuel =>
      match skip_ws s with
      | EmptyString => None
      | String c r =>
          if number_start c then
            match num_parse (String c r) with
            | Some (n, rest) => Some (JNum n, rest)
            | None => None
            end
          else if Ascii.eqb c "n" then
            match expect "ull" r with
            | Some rest => Some (JNull, rest)
            | None => None
            end
          else if Ascii.eqb c "t" then
            match expect "rue" r with
            | Some rest => Some (JBool true, rest)
            | None => None
            end
          else if Ascii.eqb c "f" then
            match expect "alse" r with
            | Some rest => Some (JBool false, rest)
            | None => None
            end
          else if Ascii.eqb c "034" then
            match parse_string_body r with
            | Some (s', rest) => Some (JStr s', rest)
            | None => None
            end
          else if Ascii.eqb c "[" then
            match skip_ws r with
            | EmptyString => None
            | String c' r' =>
                if Ascii.eqb c' "]" then Some (JArr [], r')
                else
                  match parse_elements fuel (String c' r') with
                  | Some (items, rest) => Some (JArr items, rest)
                  | None => None
                  end
            end
          else if Ascii.eqb c "{" then
            match skip_ws r with
            | EmptyString => None
            | String c' r' =>
                if Ascii.eqb c' "}" then Some (JObj [], r')
                else
                  match parse_members fuel (String c' r') with
                  | Some (members, rest) => Some (build_object members, rest)
                  | None => None
                  end
            end
          else None
      end
  end

with parse_elements (fuel : nat) (s : string) : option (list json * string) :=
  match fuel with
  | O => None
  | S fuel =>
      match parse_value fuel s with
      | Some (v, rest) =>
          match skip_ws rest with
          | EmptyString => None
          | String c rest' =>
              if Ascii.eqb c "," then
                match parse_elements fuel rest' with
                | Some (vs, rest'') => Some (v :: vs, rest'')
                | None => None
                end
              else if Ascii.eqb c "]" then Some ([v], rest')
              else None
          end
      | None => None
      end
  end

with parse_members (fuel : nat) (s : string)
  : option (list (string * json) * string) :=
  match fuel with
  | O => None
  | S fuel =>
      match skip_ws s with
      | EmptyString => None
      | String q r =>
          if Ascii.eqb q "034" then
            match parse_string_body r with
            | Some (k, rest) =>
                match skip_ws rest with
                | EmptyString => None
                | String colon rest' =>
                    if Ascii.eqb colon ":" then
                      match parse_value fuel rest' with
                      | Some (v, rest'') =>
                          match skip_ws rest'' with
                          | EmptyString => None
                          | String c rest3 =>
                              if Ascii.eqb c "," then
                                match parse_members fuel rest3 with
                                | Some (ms, rest4) => Some ((k, v) :: ms, rest4)
                                | None => None
                                end
                              else if Ascii.eqb c "}" then Some ([(k, v)], rest3)
                              else None
                          end
                      | None => None
                      end
                    else None
                end
            | None => None
            end
          else None
      end
  end.

(** The whole text is one value, with white space around it. *)
Definition JSON_parse (s : string) : option json :=
  match parse_value (S (String.length s)) s with
  | Some (v, rest) =>
      match skip_ws rest with
      | EmptyString => Some v
      | String _ _ => None
      end
  | None => None
  end.

(** An object of the engine holds a key once: the keys of every object in
    the value are pairwise distinct. *)
Fixpoint distinct_keys (v : json) : Prop :=
  match v with
  | JArr items =>
      (fix all (l : list json) : Prop :=
         match l with
         | [] => True
         | x :: r => distinct_keys x /\ all r
         end) items
  | JObj props =>
      NoDup (map fst props) /\
      (fix all (l : list (string * json)) : Prop :=
         match l with
         | [] => True
         | kv :: r => distinct_keys (snd kv) /\ all r
         end) props
  | _ => True
  end.

(** The numbers that reading gives back as they were written: every number
    in the value is finite and none is negative zero. *)
Fixpoint plain_numbers (v : json) : Prop :=
  match v with
  | JNum n => num_is_finite n = true /\ num_is_negative_zero n = false
  | JArr items =>
      (fix all (l : list json) : Prop :=
         match l with
         | [] => True
         | x :: r => plain_numbers x /\ all r
         end) items
  | JObj props =>
      (fix all (l : list (string * json)) : Prop :=
         match l with
         | [] => True
         | kv :: r => plain_numbers (snd kv) /\ all r
         end) props
  | _ => True
  end.

End Parse.

(** * The rest of [index.ts] *)

(** ** The [ListToolsRequestSchema] handler (index.ts, lines 306-406) *)

Section ListTools.

Context {num : Type} {NumOps : JSNumber num}.

#[local] Abbreviation json := (json num).
#[local] Abbreviation jsval := (jsval num).

(** The object the handler returns, key by key as the source writes it. *)
Definition list_tools : json :=
  JObj
    [ ("tools",
       JArr
         [ JObj
             [ ("name", JStr "search_tm_partner");
               ("description",
                JStr "Search for events, venues, or attractions using Ticketmaster Partner API");
               ("inputSchema",
                JObj
                  [ ("type", JStr "object");
                    ("properties",
                     JObj
                       [ ("type",
                          JObj [ ("type", JStr "string");
                                 ("enum", JArr [JStr "event"; JStr "venue"; JStr "attraction"]);
                                 ("description", JStr "Type of search to perform") ]);
                         ("keyword",
                          JObj [ ("type", JStr "string");
                                 ("description", JStr "Search keyword or term") ]);
                         ("eventId",
                          JObj [ ("type", JStr "string");
                                 ("description", JStr "Specific event ID to retrieve") ]);
                         ("venueId",
                          JObj [ ("type", JStr "string");
                                 ("description", JStr "Specific venue ID to search or retrieve") ]);
                         ("attractionId",
                          JObj [ ("type", JStr "string");
                                 ("description", JStr "Specific attraction ID to search or retrieve") ]);
                         ("startDateTime",
                          JObj [ ("type", JStr "string");
                                 ("description",
                                  JStr "Start date/time in ISO 8601 format (YYYY-MM-DDTHH:mm:ssZ)") ]);
                         ("endDateTime",
                          JObj [ ("type", JStr "string");
                                 ("description",
                                  JStr "End date/time in ISO 8601 format (YYYY-MM-DDTHH:mm:ssZ)") ]);
                         ("city",
                          JObj [ ("type", JStr "string");
                                 ("description", JStr "City name") ]);
                         ("stateCode",
                          JObj [ ("type", JStr "string");
                                 ("description", JStr "State code (e.g., NY, CA)") ]);
                         ("countryCode",
                          JObj [ ("type", JStr "string");
                                 ("description", JStr "Country code (e.g., US, CA)") ]);
                         ("postalCode",
                          JObj [ ("type", JStr "string");
                                 ("description", JStr "Postal/ZIP code") ]);
                         ("latlong",
                          JObj [ ("type", JStr "string");
                                 ("description", JStr "Latitude,longitude for geographic search") ]);
                         ("radius",
                          JObj [ ("type", JStr "string");
                                 ("description", JStr "Search radius") ]);
                         ("unit",
                          JObj [ ("type", JStr "string");
                                 ("enum", JArr [JStr "miles"; JStr "km"]);
                                 ("description", JStr "Unit for radius (miles or km)") ]);
                         ("classificationName",
                          JObj [ ("type", JStr "array");
                                 ("items", JObj [ ("type", JStr "string") ]);
                                 ("description", JStr "Event classification/category names") ]);
                         ("size",
                          JObj [ ("type", JStr "number");
                                 ("description", JStr "Number of results per page (max 200)");
                                 ("default", JNum (num_of_Z 20)) ]);
                         ("page",
                          JObj [ ("type", JStr "number");
                                 ("description", JStr "Page number (0-indexed)");
                                 ("default", JNum (num_of_Z 0)) ]);
                         ("sort",
                          JObj [ ("type", JStr "string");
                                 ("description", JStr "Sort order for results") ]);
                         ("format",
                          JObj [ ("type", JStr "string");
                                 ("enum", JArr [JStr "json"; JStr "text"]);
                                 ("description", JStr "Output format (defaults to json)");
                                 ("default", JStr "json") ]) ]);
                    ("required", JArr [JStr "type"]) ]) ] ]) ].

(** [path] followed from [v], one key at a time, through objects and
    arrays; [None] where it leads nowhere. *)
Fixpoint at_path (path : list string) (v : jsval) : jsval :=
  match path with
  | [] => v
  | k :: rest =>
      match v with
      | Some (JObj props) => at_path rest (lookup k props)
      | Some (JArr items) =>
          match Dec.index_of_key k with
          | Some i => at_path rest (nth_error items i)
          | None => None
          end
      | _ => None
      end
  end.

(** [tools[0].inputSchema] of the listing. *)
Definition input_schema : jsval :=
  at_path ["tools"; "0"; "inputSchema"] (Some list_tools).

(** The properties the input schema declares, with their schemas. *)
Definition declared_properties : list (string * json) :=
  match at_path ["properties"] input_schema with
  | Some (JObj props) => props
  | _ => []
  end.

(** The names the input schema requires. *)
Definition required_properties : list string :=
  match at_path ["required"] input_schema with
  | Some (JArr names) =>
      flat_map (fun n => match n with JStr s => [s] | _ => [] end) names
  | _ => []
  end.

(** The default the input schema declares for a property. *)
Definition declared_default (k : string) : jsval :=
  at_path [k; "default"] (Some (JObj declared_properties)).

(** A value against the [type] keyword of a schema. *)
Definition has_json_type (type : jsval) (v : json) : bool :=
  match type, v with
  | Some (JStr t), JStr _ => String.eqb t "string"
  | Some (JStr t), JNum _ => String.eqb t "number"
  | Some (JStr t), JBool _ => String.eqb t "boolean"
  | Some (JStr t), JArr _ => String.eqb t "array"
  | Some (JStr t), JObj _ => String.eqb t "object"
  | Some (JStr t), JNull => String.eqb t "null"
  | _, _ => true
  end.

(** A value against the [enum] keyword of a schema; the enumerations of
    this listing hold strings. *)
Definition in_enum (enum : jsval) (v : json) : bool :=
  match enum with
  | Some (JArr choices) =>
      existsb (fun c => match c, v with
                        | JStr a, JStr b => String.eqb a b
                        | _, _ => false
                        end) choices
  | _ => true
  end.

(** A value against a property schema of this listing: [type], [enum],
    and [items] with its [type]. *)
Definition conforms_to (schema : json) (v : json) : bool :=
  match schema with
  | JObj s =>
      has_json_type (lookup "type" s) v
      && in_enum (lookup "enum" s) v
      && match lookup "items" s, v with
         | Some (JObj items), JArr elements =>
             forallb (has_json_type (lookup "type" items)) elements
         | _, _ => true
         end
  | _ => true
  end.

(** An argument object against the input schema: the required properties
    are there, and each declared property that is there conforms. *)
Definition conforms (props : list (string * json)) : bool :=
  forallb (fun k => has_key k props) required_properties
  && forallb (fun kd => match lookup (fst kd) props with
                        | Some v => conforms_to (snd kd) v
                        | None => true
                        end) declared_properties.

End ListTools.

(** ** The response interfaces (index.ts, lines 28-124)

    TypeScript erases them; here they are the shapes a value can be checked
    against.  A field marked [?] may be absent; a value may hold fields the
    interface does not name. *)

Section Interfaces.

Context {num : Type}.

#[local] Abbreviation json := (json num).
#[local] Abbreviation jsval := (jsval num).

Definition is_string (v : jsval) : bool :=
  match v with Some (JStr _) => true | _ => false end.

Definition is_number (v : jsval) : bool :=
  match v with Some (JNum _) => true | _ => false end.

Definition is_boolean (v : jsval) : bool :=
  match v with Some (JBool _) => true | _ => false end.

(** [field?: T]. *)
Definition optional (check : jsval -> bool) (v : jsval) : bool :=
  match v with
  | None => true
  | Some _ => check v
  end.

(** An object whose fields pass [check]. *)
Definition is_object (check : list (string * json) -> bool) (v : jsval) : bool :=
  match v with
  | Some (JObj props) => check props
  | _ => false
  end.

(** [Array<T>]. *)
Definition is_array (check : jsval -> bool) (v : jsval) : bool :=
  match v with
  | Some (JArr items) => forallb (fun x => check (Some x)) items
  | _ => false
  end.

(** [{ url: string; width: number; height: number; fallback: boolean }]. *)
Definition is_image : jsval -> bool :=
  is_object (fun p =>
    is_string (lookup "url" p) && is_number (lookup "width" p)
    && is_number (lookup "height" p) && is_boolean (lookup "fallback" p)).

(** [{ id: string; name: string }]. *)
Definition is_id_name : jsval -> bool :=
  is_object (fun p => is_string (lookup "id" p) && is_string (lookup "name" p)).

(** [interface PartnerVenue]. *)
Definition is_PartnerVenue : jsval -> bool :=
  is_object (fun p =>
    is_string (lookup "id" p) && is_string (lookup "name" p)
    && is_string (lookup "type" p) && is_string (lookup "url" p)
    && is_string (lookup "locale" p)
    && optional is_string (lookup "timezone" p)
    && optional (is_object (fun c => is_string (lookup "name" c)))
         (lookup "city" p)
    && optional (is_object (fun s =>
         is_string (lookup "name" s) && is_string (lookup "stateCode" s)))
         (lookup "state" p)
    && optional (is_object (fun c =>
         is_string (lookup "name" c) && is_string (lookup "countryCode" c)))
         (lookup "country" p)
    && optional (is_object (fun a =>
         is_string (lookup "line1" a) && optional is_string (lookup "line2" a)))
         (lookup "address" p)
    && optional (is_object (fun l =>
         is_string (lookup "longitude" l) && is_string (lookup "latitude" l)))
         (lookup "location" p)).

(** An element of [PartnerAttraction.classifications]. *)
Definition is_classification : jsval -> bool :=
  is_object (fun c =>
    is_boolean (lookup "primary" c)
    && optional is_id_name (lookup "segment" c)
    && optional is_id_name (lookup "genre" c)
    && optional is_id_name (lookup "subGenre" c)).

(** [interface PartnerAttraction]. *)
Definition is_PartnerAttraction : jsval -> bool :=
  is_object (fun p =>
    is_string (lookup "id" p) && is_string (lookup "name" p)
    && is_string (lookup "type" p) && is_string (lookup "url" p)
    && is_string (lookup "locale" p)
    && optional (is_array is_image) (lookup "images" p)
    && optional (is_array is_classification) (lookup "classifications" p)).

(** An element of [PartnerEvent.priceRanges]. *)
Definition is_price_range : jsval -> bool :=
  is_object (fun r =>
    is_string (lookup "type" r) && is_string (lookup "currency" r)
    && is_number (lookup "min" r) && is_number (lookup "max" r)).

(** [interface PartnerEvent]. *)
Definition is_PartnerEvent : jsval -> bool :=
  is_object (fun p =>
    is_string (lookup "id" p) && is_string (lookup "name" p)
    && is_string (lookup "type" p) && is_string (lookup "url" p)
    && is_string (lookup "locale" p)
    && optional (is_array is_image) (lookup "images" p)
    && optional (is_object (fun d =>
         optional (is_object (fun s =>
           optional is_string (lookup "localDate" s)
           && optional is_string (lookup "localTime" s)
           && optional is_string (lookup "dateTime" s)))
           (lookup "start" d)
         && optional is_string (lookup "timezone" d)
         && optional (is_object (fun s => is_string (lookup "code" s)))
              (lookup "status" d)))
         (lookup "dates" p)
    && optional (is_object (fun s =>
         optional (is_object (fun pub =>
           optional is_string (lookup "startDateTime" pub)
           && optional is_string (lookup "endDateTime" pub)))
           (lookup "public" s)))
         (lookup "sales" p)
    && optional (is_array is_price_range) (lookup "priceRanges" p)
    && optional (is_object (fun e =>
         optional (is_array is_PartnerVenue) (lookup "venues" e)
         && optional (is_array is_PartnerAttraction) (lookup "attractions" e)))
         (lookup "_embedded" p)).

End Interfaces.

(** * The vocabulary of the properties *)

Section Vocabulary.

Context {num : Type} {NumOps : JSNumber num} {HostOps : Host}.
Variable transport : http_request (num:=num) -> option (http_response num).

#[local] Abbreviation json := (json num).
#[local] Abbreviation jsval := (jsval num).

(** ** Invocations *)

(** The destructured variables of an argument object. *)
Definition args_of (props : list (string * json)) : tool_args :=
  {| arg_type := lookup "type" props;
     arg_keyword := lookup "keyword" props;
     arg_eventId := lookup "eventId" props;
     arg_venueId := lookup "venueId" props;
     arg_attractionId := lookup "attractionId" props;
     arg_startDateTime := lookup "startDateTime" props;
     arg_endDateTime := lookup "endDateTime" props;
     arg_city := lookup "city" props;
     arg_stateCode := lookup "stateCode" props;
     arg_countryCode := lookup "countryCode" props;
     arg_postalCode := lookup "postalCode" props;
     arg_latlong := lookup "latlong" props;
     arg_radius := lookup "radius" props;
     arg_unit := lookup "unit" props;
     arg_classificationName := lookup "classificationName" props;
     arg_size := with_default (lookup "size" props) (JNum (num_of_Z 20));
     arg_page := with_default (lookup "page" props) (JNum (num_of_Z 0));
     arg_sort := lookup "sort" props;
     arg_format := with_default (lookup "format" props) (JStr "json") |}.

(** A call of the tool with an argument object. *)
Definition search_request (props : list (string * json)) : tool_request :=
  {| name := "search_tm_partner"; arguments := Some (JObj props) |}.

(** The handler after destructuring: the router's computation [m], then
    the rendering, inside the [try]. *)
Definition after (a : tool_args) (m : Eff json)
  : list http_request * R num tool_result :=
  try_catch (ebind m (fun results => lift (render a results)))
            (fun error => lift (on_error error)) [].

(** The router has settled on one request: send it, render the body or map
    the failure. *)
Definition settle (a : tool_args) (u : string)
  (p : option (list (string * jsval))) : list http_request * R num tool_result :=
  after a (axios_get transport u p).

(** ** Requests *)

(** An argument the caller has given, whatever its value. *)
Definition supplied (v : jsval) : bool :=
  match v with
  | Some _ => true
  | None => false
  end.

(** The value an object literal gives to a key. *)
Fixpoint param (k : string) (ps : list (string * jsval)) : option jsval :=
  match ps with
  | [] => None
  | (k', v) :: r => if String.eqb k k' then Some v else param k r
  end.

(** [props'] is [props] without the key [k]. *)
Definition without (k : string) (props props' : list (string * json)) : Prop :=
  lookup k props' = None
  /\ forall k', k' <> k -> lookup k' props' = lookup k' props.

(** The argument fields the handler never destructures. *)
Definition unread_fields : list string :=
  [ "marketId"; "onsaleStartDateTime"; "onsaleEndDateTime"; "locale"; "source" ].

(** ** Failures *)


(** The [message] field of a response body, when the body is an object
    that has one. *)
Definition body_message (r : http_response num) : jsval :=
  match data r with
  | JObj props => lookup "message" props
  | _ => None
  end.


(** ** Records and projections *)

(** [undefined] or [null]. *)
Definition missing (v : jsval) : bool :=
  match v with
  | None => true
  | Some JNull => true
  | Some _ => false
  end.

(** No list, or a list with nothing in it. *)
Definition none_listed (v : jsval) : bool :=
  match v with
  | Some (JArr []) => true
  | _ => missing v
  end.

(** An event record without a start date/time block. *)
Definition no_start (props : list (string * json)) : bool :=
  match lookup "dates" props with
  | Some (JObj dates) => missing (lookup "start" dates)
  | v => missing v
  end.

(** An event record without embedded venues. *)
Definition no_venues (props : list (string * json)) : bool :=
  match lookup "_embedded" props with
  | Some (JObj embedded) => none_listed (lookup "venues" embedded)
  | v => missing v
  end.

(** An event record without price ranges. *)
Definition no_price_ranges (props : list (string * json)) : bool :=
  none_listed (lookup "priceRanges" props).

(** A record without a URL. *)
Definition no_url (props : list (string * json)) : bool :=
  match lookup "url" props with
  | Some (JStr s) => String.eqb s ""
  | v => missing v
  end.

(** The first line of [lines] starts with the character [c]. *)
Definition headed (c : ascii) (lines : list string) : Prop :=
  exists t rest, lines = String c t :: rest.

(** The text the handler returns for a [textOutput]. *)
Definition or_no_results (textOutput : string) : string :=
  if String.eqb textOutput "" then "No results found." else textOutput.

(** ** JSON text *)

(** Only white space. *)
Fixpoint blank (s : string) : bool :=
  match s with
  | EmptyString => true
  | String c r => is_ws c && blank r
  end.

(** The characters a serialized value can begin with. *)
Definition value_start (c : ascii) : bool :=
  number_start c || Ascii.eqb c "n" || Ascii.eqb c "t" || Ascii.eqb c "f"
  || Ascii.eqb c "034" || Ascii.eqb c "[" || Ascii.eqb c "{".

(** The fuel that reading a value back takes: one unit for the value and
    one more for each element or member, plus theirs. *)
Fixpoint weight (v : json) : nat :=
  match v with
  | JArr items => S (list_sum (map (fun x => S (weight x)) items))
  | JObj props => S (list_sum (map (fun kv => S (weight (snd kv))) props))
  | _ => 1
  end.

(** [v], written at any indentation and followed by [rest], is read back
    as [v], leaving [rest]. *)
Definition reads_back (v : json) : Prop :=
  forall ind rest fuel,
    blank ind = true -> number_boundary rest = true -> weight v <= fuel ->
    parse_value fuel (serialize ind v ++ rest) = Some (v, rest).

End Vocabulary.

(** * The vocabulary of the further properties *)

Section FurtherVocabulary.

Context {num : Type} {NumOps : JSNumber num} {HostOps : Host}.

#[local] Abbreviation json := (json num).
#[local] Abbreviation jsval := (jsval num).

(** The three collections of the Partner API. *)
Definition collection_paths : list string :=
  [ "/events"; "/venues"; "/attractions" ].

(** A call the client class can make: a search on a collection, with
    parameters, or a fetch of one entity under a collection, without. *)
Definition known_endpoint (req : http_request (num:=num)) : Prop :=
  match params req with
  | Some _ => In (url req) collection_paths
  | None =>
      exists collection id_s,
        In collection collection_paths
        /\ url req = collection ++ "/" ++ id_s
  end.

(** [text] begins with the character [c]. *)
Definition begins_with (c : ascii) (text : string) : Prop :=
  exists rest, text = String c rest.

(** The arguments an event fetch reads. *)
Definition event_fetch_fields : list string :=
  [ "type"; "eventId"; "format" ].

(** The arguments a venue or attraction fetch reads; [keyword] is read
    for the choice between the fetch and the search. *)
Definition fetch_fields (id_field : string) : list string :=
  [ "type"; id_field; "keyword"; "format" ].

(** The declared arguments a venue request never reads. *)
Definition venue_unused : list string :=
  [ "eventId"; "attractionId"; "startDateTime"; "endDateTime";
    "classificationName" ].

(** The declared arguments an attraction request never reads. *)
Definition attraction_unused : list string :=
  [ "eventId"; "venueId"; "startDateTime"; "endDateTime"; "city";
    "stateCode"; "countryCode"; "postalCode"; "latlong"; "radius"; "unit" ].

(** [m] returns, it does not throw. *)
Definition succeeds {A : Type} (m : R num A) : Prop :=
  exists x, m = inr x.

(** Absent, or an object whose field [k] is a string. *)
Definition names (k : string) (v : jsval) : Prop :=
  v = None
  \/ exists fields s, v = Some (JObj fields) /\ lookup k fields = Some (JStr s).

(** Absent, or a string. *)
Definition string_or_absent (v : jsval) : Prop :=
  v = None \/ exists s, v = Some (JStr s).

(** An entry whose [primary] the callback of [find] takes as set. *)
Definition flagged (c : json) : bool :=
  truthy (match c with
          | JObj p => lookup "primary" p
          | _ => None
          end).

(** The classification [formatAttractionAsText] takes from a list: the
    first one flagged primary, or else the first one. *)
Definition chosen_classification (cs : list json) : jsval :=
  match find flagged cs with
  | Some c => Some c
  | None => hd_error cs
  end.

(** A search response as the handler's annotations take it: an [_embedded]
    wrapper whose [events], [venues] and [attractions], where present, are
    arrays of the interfaces. *)
Definition is_search_results : jsval -> bool :=
  is_object (fun p =>
    is_object (fun e =>
      optional (is_array is_PartnerEvent) (lookup "events" e)
      && optional (is_array is_PartnerVenue) (lookup "venues" e)
      && optional (is_array is_PartnerAttraction) (lookup "attractions" e))
    (lookup "_embedded" p)).

End FurtherVocabulary.

(** * Properties *)

(** ** Strings *)

Lemma append_assoc (a b c : string) : (a ++ b) ++ c = a ++ (b ++ c).
Proof.
  induction a as [|x a IH]; simpl.
  - reflexivity.
  - now rewrite IH.
Qed.

Lemma append_nil_r (a : string) : a ++ "" = a.
Proof.
  induction a as [|x a IH]; simpl; [reflexivity | now rewrite IH].
Qed.

Lemma length_append (a b : string) :
  String.length (a ++ b) = String.length a + String.length b.
Proof.
  induction a as [|x a IH]; simpl; [reflexivity | now rewrite IH].
Qed.




(** ** The numbers and the host of the examples *)

Module Node.

Definition not_digit_head (rest : string) : Prop :=
  match rest with
  | EmptyString => True
  | String c _ => Dec.is_digit c = false
  end.

Lemma boundary_not_digit rest :
  number_boundary rest = true -> not_digit_head rest.
Proof.
  destruct rest as [|c r]; simpl; [trivial|].
  unfold number_char. destruct (Dec.is_digit c); simpl; [discriminate | reflexivity].
Qed.

Lemma lex_digits_stop rest :
  not_digit_head rest -> Dec.lex_digits rest = (Nil, rest).
Proof.
  destruct rest as [|c r]; simpl; [reflexivity|].
  unfold Dec.is_digit. destruct (Dec.digit_of c); [discriminate | reflexivity].
Qed.

Lemma lex_digits_print d rest :
  not_digit_head rest ->
  Dec.lex_digits (Dec.uint_to_string d ++ rest) = (d, rest).
Proof.
  intros H. induction d; simpl; try (rewrite IHd; reflexivity).
  now apply lex_digits_stop.
Qed.

Lemma uint_to_string_head d :
  d <> Nil ->
  exists c s, Dec.uint_to_string d = String c s /\ Dec.is_digit c = true.
Proof.
  destruct d; [congruence | ..]; intros _; simpl; eexists _, _; split;
    reflexivity.
Qed.

Lemma to_int_cases z :
  exists u, u <> Nil /\ (Z.to_int z = Pos u \/ Z.to_int z = Neg u).
Proof.
  destruct z as [|p|p]; simpl.
  - exists (D0 Nil). split; [discriminate | now left].
  - exists (Pos.to_uint p). split; [apply DecimalPos.Unsigned.to_uint_nonnil | now left].
  - exists (Pos.to_uint p). split; [apply DecimalPos.Unsigned.to_uint_nonnil | now right].
Qed.

Lemma to_string_head z :
  exists c s, Dec.Z_to_string z = String c s /\ number_start c = true.
Proof.
  unfold Dec.Z_to_string.
  destruct (to_int_cases z) as (u & Hu & [E | E]); rewrite E; simpl.
  - destruct (uint_to_string_head u Hu) as (c & s & -> & Hc).
    exists c, s. split; [reflexivity|]. unfold number_start. now rewrite Hc.
  - eexists _, _. split; reflexivity.
Qed.

Lemma digit_not_minus c : Dec.is_digit c = true -> c <> "-"%char.
Proof. intros H ->. discriminate H. Qed.

Lemma lex_int_print z rest :
  number_boundary rest = true ->
  Dec.lex_int (Dec.Z_to_string z ++ rest) = Some (z, rest).
Proof.
  intros Hb%boundary_not_digit.
  pose proof (DecimalZ.of_to z) as Hz.
  unfold Dec.Z_to_string.
  destruct (to_int_cases z) as (u & Hu & [E | E]); rewrite E in *; simpl.
  - destruct (uint_to_string_head u Hu) as (c & s & Es & Hc).
    assert (Hl : Dec.lex_digits (String c s ++ rest) = (u, rest))
      by (rewrite <- Es; now apply lex_digits_print).
    rewrite Es. simpl append. unfold Dec.lex_int.
    assert (Hm : c <> "-"%char) by now apply digit_not_minus.
    simpl append in Hl.
    destruct c as [[] [] [] [] [] [] [] []]; try congruence;
      rewrite Hl; destruct u; try congruence;
      exact (f_equal (fun x => Some (x, rest)) Hz).
  - unfold Dec.lex_int. rewrite (lex_digits_print u rest Hb).
    destruct u; try congruence;
      exact (f_equal (fun x => Some (x, rest)) Hz).
Qed.

(** [2^53]: up to it every integer is a double, and Number::toString
    writes its digits. *)
Definition bound : Z := 9007199254740992.

Definition in_range (z : Z) : bool := (Z.abs z <=? bound)%Z.

(** The doubles of the examples: the integers up to [bound] in magnitude,
    negative zero, the infinities and NaN. *)
Inductive double : Type :=
| Int (z : Z) (safe : in_range z = true)
| NegativeZero
| Infinity (negative : bool)
| NaN.

(** The double of an integer; beyond [bound], where no length goes, the
    nearest of these. *)
Definition int (z : Z) : double :=
  match Bool.bool_dec (in_range z) true with
  | left safe => Int z safe
  | right _ => if (0 <? z)%Z then Int bound eq_refl else Int (- bound) eq_refl
  end.

Definition truthy_double (d : double) : bool :=
  match d with
  | Int z _ => negb (z =? 0)%Z
  | NegativeZero => false
  | Infinity _ => true
  | NaN => false
  end.

Definition positive (d : double) : bool :=
  match d with
  | Int z _ => (0 <? z)%Z
  | Infinity negative => negb negative
  | _ => false
  end.

Definition is_finite (d : double) : bool :=
  match d with
  | Int _ _ | NegativeZero => true
  | _ => false
  end.

Definition is_negative_zero (d : double) : bool :=
  match d with
  | NegativeZero => true
  | _ => false
  end.

(** Number::toString. *)
Definition double_to_string (d : double) : string :=
  match d with
  | Int z _ => Dec.Z_to_string z
  | NegativeZero => "0"
  | Infinity false => "Infinity"
  | Infinity true => "-Infinity"
  | NaN => "NaN"
  end.

(** A JSON number read as one of these doubles: an integer literal in
    its canonical form, up to [bound], or [-0].  A literal with a fraction
    or an exponent, or beyond [bound], is not read. *)
Definition read_double (s : string) : option (double * string) :=
  match Dec.lex_int s with
  | Some (z, rest) =>
      if number_boundary rest then
        match Bool.bool_dec (in_range z) true with
        | left safe =>
            if String.eqb s (Dec.Z_to_string z ++ rest)
            then Some (Int z safe, rest)
            else if String.eqb s ("-0" ++ rest) then Some (NegativeZero, rest)
            else None
        | right _ => None
        end
      else None
  | None => None
  end.

Lemma Int_irrelevant z (p q : in_range z = true) : Int z p = Int z q.
Proof. f_equal. apply (Eqdep_dec.UIP_dec Bool.bool_dec). Qed.

Lemma positive_int z : positive (int z) = (0 <? z)%Z.
Proof.
  unfold int. destruct (Bool.bool_dec (in_range z) true) as [H|H];
    [reflexivity|].
  now destruct (0 <? z)%Z.
Qed.

Lemma double_to_string_head d :
  is_finite d = true ->
  exists c s, double_to_string d = String c s /\ number_start c = true.
Proof.
  destruct d as [z safe| | |]; try discriminate; intros _.
  - apply to_string_head.
  - now exists "0"%char, "".
Qed.

Lemma read_double_print d rest :
  is_finite d = true -> is_negative_zero d = false ->
  number_boundary rest = true ->
  read_double (double_to_string d ++ rest) = Some (d, rest).
Proof.
  destruct d as [z safe| | |]; try discriminate; intros _ _ Hb.
  unfold read_double. cbn [double_to_string].
  rewrite (lex_int_print z rest Hb), Hb.
  destruct (Bool.bool_dec (in_range z) true) as [H|H]; [|contradiction].
  rewrite String.eqb_refl. f_equal. f_equal. apply Int_irrelevant.
Qed.

#[export] Instance Doubles : JSNumber double := {|
  num_of_Z := int;
  num_truthy := truthy_double;
  num_gt0 := positive;
  num_is_finite := is_finite;
  num_is_negative_zero := is_negative_zero;
  num_to_string := double_to_string;
  num_parse := read_double;
  num_gt0_of_Z := positive_int;
  num_to_string_head := double_to_string_head;
  num_parse_to_string := read_double_print
|}.

Definition code_number (c : ErrorCode) : Z :=
  match c with
  | InvalidParams => -32602
  | MethodNotFound => -32601
  | InternalError => -32603
  end%Z.

(** *** [ToNumber(s) > 0] on a string (StringToNumber) *)

Definition is_space (c : ascii) : bool :=
  let n := nat_of_ascii c in
  ((9 <=? n)%nat && (n <=? 13)%nat) || (n =? 32)%nat || (n =? 160)%nat.

Fixpoint trim_left (s : string) : string :=
  match s with
  | String c r => if is_space c then trim_left r else s
  | EmptyString => EmptyString
  end.

Fixpoint reverse (acc s : string) : string :=
  match s with
  | String c r => reverse (String c acc) r
  | EmptyString => acc
  end.

Definition trim (s : string) : string :=
  reverse "" (trim_left (reverse "" (trim_left s))).

(** [m * 10^e], with [0 <= m], is read as a double above zero: it is above
    [2^-1075], half the least double above zero. *)
Definition reads_above_zero (m e : Z) : bool :=
  (0 <? m)%Z
  && (if (0 <=? e)%Z then true else (10 ^ (- e) <? m * 2 ^ 1075)%Z).

(** The digits of a literal in base [base], to the end of the string. *)
Fixpoint digits_value (base : nat) (acc : option Z) (s : string) : option Z :=
  match s with
  | EmptyString => acc
  | String c r =>
      match unhex c with
      | Some d =>
          if (d <? base)%nat
          then digits_value base
                 (Some (match acc with Some a => a | None => 0 end
                        * Z.of_nat base + Z.of_nat d)%Z) r
          else None
      | None => None
      end
  end.

(** The exponent part, to the end of the string. *)
Definition exponent_value (s : string) : option Z :=
  match s with
  | EmptyString => Some 0%Z
  | String c r =>
      if Ascii.eqb c "e" || Ascii.eqb c "E" then
        let (negative, r) :=
          match r with
          | String "-" r' => (true, r')
          | String "+" r' => (false, r')
          | _ => (false, r)
          end in
        match Dec.lex_digits r with
        | (Nil, _) => None
        | (d, EmptyString) =>
            let e := Z.of_int (Pos d) in Some (if negative then - e else e)%Z
        | _ => None
        end
      else None
  end.

(** An unsigned StrDecimalLiteral is above zero. *)
Definition decimal_above_zero (s : string) : bool :=
  if String.eqb s "Infinity" then true else
  let (whole, r) := Dec.lex_digits s in
  let (fraction, r) :=
    match r with
    | String "." r' => Dec.lex_digits r'
    | _ => (Nil, r)
    end in
  match whole, fraction with
  | Nil, Nil => false
  | _, _ =>
      match exponent_value r with
      | Some e =>
          let shift := Z.of_nat (Decimal.nb_digits fraction) in
          reads_above_zero
            (Z.of_int (Pos whole) * 10 ^ shift + Z.of_int (Pos fraction))
            (e - shift)
      | None => false
      end
  end.

Definition above_zero (s : string) : bool :=
  match trim s with
  | String "-" _ => false
  | String "+" r => decimal_above_zero r
  | String "0" (String x r) =>
      let based (base : nat) :=
        match digits_value base None r with
        | Some v => (0 <? v)%Z
        | None => false
        end in
      if Ascii.eqb x "x" || Ascii.eqb x "X" then based 16%nat
      else if Ascii.eqb x "o" || Ascii.eqb x "O" then based 8%nat
      else if Ascii.eqb x "b" || Ascii.eqb x "B" then based 2%nat
      else decimal_above_zero (trim s)
  | t => decimal_above_zero t
  end.

(** A host as Node.js with the MCP TypeScript SDK: V8's messages, and
    [McpError]'s message ["MCP error <code>: <text>"]. *)
#[export] Instance NodeHost : Host := {|
  engine_message := fun e =>
    match e with
    | CannotDestructure false =>
        "Cannot destructure property 'type' of 'args' as it is undefined."
    | CannotDestructure true =>
        "Cannot destructure property 'type' of 'args' as it is null."
    | CannotReadProperty false k =>
        "Cannot read properties of undefined (reading '" ++ k ++ "')"
    | CannotReadProperty true k =>
        "Cannot read properties of null (reading '" ++ k ++ "')"
    | NotAFunction callee => callee ++ " is not a function"
    | CannotConvertToPrimitive => "Cannot convert object to primitive value"
    end;
  string_gt0 := above_zero;
  mcp_message := fun c m =>
    "MCP error " ++ Dec.Z_to_string (code_number c) ++ ": " ++ m
|}.

End Node.

(** ** The handler, step by step *)

Section HandlerFacts.

Context {num : Type} {NumOps : JSNumber num} {HostOps : Host}.
Variable transport : http_request (num:=num) -> option (http_response num).

#[local] Abbreviation json := (json num).
#[local] Abbreviation jsval := (jsval num).

Lemma destructure_object props :
  destructure (Some (JObj props)) = ret (args_of props).
Proof. reflexivity. Qed.

Lemma invoke_after request a :
  name request = "search_tm_partner" ->
  destructure (arguments request) = inr a ->
  invoke transport request = after a (route transport a).
Proof.
  intros En Ed. unfold invoke, handle_call, after, search_tm_partner.
  rewrite En. simpl String.eqb. cbv iota.
  unfold try_catch, ebind at 1 3, lift at 1 3. now rewrite Ed.
Qed.

Lemma invoke_search_request props :
  invoke transport (search_request props)
  = after (args_of props) (route transport (args_of props)).
Proof. now apply invoke_after. Qed.

Lemma settle_eq a u p :
  settle transport a u p
  = ([ {| url := u; params := p |} ],
     match transport {| url := u; params := p |} with
     | None => on_error AxiosRequestError
     | Some r =>
         if validateStatus (status r)
         then match render a (data r) with
              | inl e => on_error e
              | inr x => inr x
              end
         else on_error (AxiosResponseError r)
     end).
Proof.
  unfold settle, after, try_catch, ebind, axios_get, lift, ret, throw. simpl.
  destruct (transport _) as [r|]; [|reflexivity].
  destruct (validateStatus _); [|reflexivity].
  now destruct (render a (data r)).
Qed.

Lemma settle_calls a u p :
  fst (settle transport a u p) = [ {| url := u; params := p |} ].
Proof. now rewrite settle_eq. Qed.

Lemma after_throw a (e : js_error num) :
  after a (fun log => (log, inl e)) = ([], on_error e).
Proof. reflexivity. Qed.

(** A fetch by identifier sends its request once the identifier has its
    string form, and nothing when the conversion throws. *)
Lemma after_bind_id a (id : jsval) (k : string -> Eff json) :
  after a (ebind (lift (to_string_val id)) k)
  = match to_string_val id with
    | inl e => ([], on_error e)
    | inr s => after a (k s)
    end.
Proof.
  unfold after, try_catch, ebind, lift.
  now destruct (to_string_val id).
Qed.

(** The router sends nothing, or settles on one request. *)
Lemma after_route_cases a :
  fst (after a (route transport a)) = []
  \/ exists u p, after a (route transport a) = settle transport a u p.
Proof.
  assert (Hone : forall u p,
    fst (settle transport a u p) = []
    \/ exists u0 p0, settle transport a u p = settle transport a u0 p0).
  { intros u p. right. now exists u, p. }
  assert (Hid : forall id prefix,
    let m := ebind (lift (to_string_val id))
                   (fun s => axios_get transport (prefix ++ s) None) in
    fst (after a m) = [] \/ exists u0 p0, after a m = settle transport a u0 p0).
  { intros id prefix m. unfold m. rewrite after_bind_id.
    destruct (to_string_val id) as [e|s]; [now left|].
    apply (Hone (prefix ++ s) None). }
  unfold route.
  destruct (is_str "event" (arg_type a)).
  { destruct (truthy (arg_eventId a)); [apply Hid | apply Hone]. }
  destruct (is_str "venue" (arg_type a)).
  { destruct (truthy (arg_venueId a) && negb (truthy (arg_keyword a)));
      [apply Hid | apply Hone]. }
  destruct (is_str "attraction" (arg_type a)).
  { destruct (truthy (arg_attractionId a) && negb (truthy (arg_keyword a)));
      [apply Hid | apply Hone]. }
  left. rewrite after_bind_id.
  now destruct (to_string_val (arg_type a)).
Qed.

(** Every invocation either sends nothing, or settles on one request with
    the destructured arguments. *)
Lemma invoke_cases request :
  fst (invoke transport request) = []
  \/ exists a u p,
       name request = "search_tm_partner"
       /\ destructure (arguments request) = inr a
       /\ invoke transport request = settle transport a u p.
Proof.
  destruct (String.eqb_spec (name request) "search_tm_partner") as [En|En].
  2:{ left. unfold invoke, handle_call.
      apply String.eqb_neq in En. now rewrite En. }
  destruct (destructure (arguments request)) as [e|a] eqn:Ed.
  { left. unfold invoke, handle_call, search_tm_partner.
    rewrite En. simpl String.eqb. cbv iota.
    unfold try_catch, ebind, lift. now rewrite Ed. }
  rewrite (invoke_after request a En Ed).
  destruct (after_route_cases a) as [H|(u & p & H)]; [now left|].
  right. exists a, u, p. repeat split; assumption.
Qed.

End HandlerFacts.

(** ** The request router *)

Section Router.

Context {num : Type} {NumOps : JSNumber num} {HostOps : Host}.
Variable transport : http_request (num:=num) -> option (http_response num).

#[local] Abbreviation json := (json num).
#[local] Abbreviation jsval := (jsval num).

#[local] Ltac route_kind :=
  repeat match goal with
  | |- context [is_str ?s (Some (JStr ?t))] =>
      let b := eval vm_compute in (String.eqb t s) in
      change (is_str s (Some (JStr t))) with b
  end;
  cbv iota;
  simpl arg_eventId; simpl arg_venueId; simpl arg_attractionId;
  simpl arg_keyword;
  match goal with
  | |- context [if ?c then _ else _] => destruct c; reflexivity
  end.

Lemma invoke_event props :
  lookup "type" props = Some (JStr "event") ->
  invoke transport (search_request props)
  = if truthy (lookup "eventId" props)
    then after (args_of props)
           (getEvent transport (lookup "eventId" props) None)
    else settle transport (args_of props) "/events"
           (Some (event_search_params (args_of props))).
Proof.
  intros Ht. rewrite invoke_search_request. unfold route.
  simpl arg_type. rewrite Ht. route_kind.
Qed.

Lemma invoke_venue props :
  lookup "type" props = Some (JStr "venue") ->
  invoke transport (search_request props)
  = if truthy (lookup "venueId" props) && negb (truthy (lookup "keyword" props))
    then after (args_of props)
           (getVenue transport (lookup "venueId" props) None)
    else settle transport (args_of props) "/venues"
           (Some (venue_search_params (args_of props))).
Proof.
  intros Ht. rewrite invoke_search_request. unfold route.
  simpl arg_type. rewrite Ht. route_kind.
Qed.

Lemma invoke_attraction props :
  lookup "type" props = Some (JStr "attraction") ->
  invoke transport (search_request props)
  = if truthy (lookup "attractionId" props)
       && negb (truthy (lookup "keyword" props))
    then after (args_of props)
           (getAttraction transport (lookup "attractionId" props) None)
    else settle transport (args_of props) "/attractions"
           (Some (attraction_search_params (args_of props))).
Proof.
  intros Ht. rewrite invoke_search_request. unfold route.
  simpl arg_type. rewrite Ht. route_kind.
Qed.

(** The requests a fetch by identifier sends. *)
Lemma fetch_calls a prefix (id : jsval) id_s :
  to_string_val id = inr id_s ->
  fst (after a
         (ebind (lift (to_string_val id))
                (fun s => axios_get transport (prefix ++ s) None)))
  = [ {| url := prefix ++ id_s; params := None |} ].
Proof.
  intros Hs. rewrite after_bind_id, Hs. apply settle_calls.
Qed.

(** C1, amended.  For [type = "venue"]: when [venueId] and [keyword] are
    both supplied and non-empty (truthy, which is what the handler tests)
    the one request sent is the search [GET /venues], whose parameters
    carry [keyword] and have no [venueId]; and the one request sent is the
    fetch [GET /venues/<id>], without parameters, exactly when [venueId] is
    supplied and non-empty and [keyword] is absent or empty.  For
    [type = "attraction"] the same holds with [attractionId],
    [/attractions] and the attraction search parameters. *)
Theorem venue_attraction_fetch_or_search (props : list (string * json)) :
  let a := args_of props in
  let calls := fst (invoke transport (search_request props)) in
  (lookup "type" props = Some (JStr "venue") ->
     (truthy (lookup "venueId" props) = true ->
      truthy (lookup "keyword" props) = true ->
        calls = [ {| url := "/venues";
                     params := Some (venue_search_params a) |} ]
        /\ param "keyword" (venue_search_params a)
           = Some (lookup "keyword" props)
        /\ param "venueId" (venue_search_params a) = None)
     /\ (forall id_s, to_string_val (lookup "venueId" props) = inr id_s ->
           (calls = [ {| url := "/venues/" ++ id_s; params := None |} ]
            <-> truthy (lookup "venueId" props) = true
                /\ truthy (lookup "keyword" props) = false)))
  /\
  (lookup "type" props = Some (JStr "attraction") ->
     (truthy (lookup "attractionId" props) = true ->
      truthy (lookup "keyword" props) = true ->
        calls = [ {| url := "/attractions";
                     params := Some (attraction_search_params a) |} ]
        /\ param "keyword" (attraction_search_params a)
           = Some (lookup "keyword" props)
        /\ param "attractionId" (attraction_search_params a) = None)
     /\ (forall id_s, to_string_val (lookup "attractionId" props) = inr id_s ->
           (calls = [ {| url := "/attractions/" ++ id_s; params := None |} ]
            <-> truthy (lookup "attractionId" props) = true
                /\ truthy (lookup "keyword" props) = false))).
Proof.
  intros a calls. subst a. split; intros Ht.
  - subst calls. rewrite (invoke_venue props Ht). split.
    + intros Hv Hk. rewrite Hv, Hk. simpl andb. cbv iota.
      rewrite settle_calls. repeat split.
    + intros id_s Hs.
      destruct (truthy (lookup "venueId" props));
        destruct (truthy (lookup "keyword" props)); simpl andb; cbv iota;
        try (rewrite settle_calls; split;
             [intros H; discriminate H | intros [H1 H2]; discriminate]).
      unfold getVenue. rewrite (fetch_calls _ "/venues/" _ id_s Hs).
      split; [now split | reflexivity].
  - subst calls. rewrite (invoke_attraction props Ht). split.
    + intros Hv Hk. rewrite Hv, Hk. simpl andb. cbv iota.
      rewrite settle_calls. repeat split.
    + intros id_s Hs.
      destruct (truthy (lookup "attractionId" props));
        destruct (truthy (lookup "keyword" props)); simpl andb; cbv iota;
        try (rewrite settle_calls; split;
             [intros H; discriminate H | intros [H1 H2]; discriminate]).
      unfold getAttraction. rewrite (fetch_calls _ "/attractions/" _ id_s Hs).
      split; [now split | reflexivity].
Qed.

(** C2, amended.  For [type = "event"]: with an [eventId] supplied and
    non-empty (truthy, which is what the handler tests) the one request
    sent is the fetch [GET /events/<id>] and it carries no parameter at
    all; with [eventId] absent or empty, the one request sent is the search
    [GET /events] with the sixteen listed parameters, each the value of the
    argument of that name, [size] and [page] with their defaults. *)
Theorem event_fetch_or_search (props : list (string * json)) :
  lookup "type" props = Some (JStr "event") ->
  let calls := fst (invoke transport (search_request props)) in
  (truthy (lookup "eventId" props) = true ->
   forall id_s, to_string_val (lookup "eventId" props) = inr id_s ->
     calls = [ {| url := "/events/" ++ id_s; params := None |} ])
  /\
  (truthy (lookup "eventId" props) = false ->
     calls =
       [ {| url := "/events";
            params := Some
              [ ("keyword", lookup "keyword" props);
                ("attractionId", lookup "attractionId" props);
                ("venueId", lookup "venueId" props);
                ("postalCode", lookup "postalCode" props);
                ("latlong", lookup "latlong" props);
                ("radius", lookup "radius" props);
                ("unit", lookup "unit" props);
                ("startDateTime", lookup "startDateTime" props);
                ("endDateTime", lookup "endDateTime" props);
                ("size", with_default (lookup "size" props) (JNum (num_of_Z 20)));
                ("page", with_default (lookup "page" props) (JNum (num_of_Z 0)));
                ("sort", lookup "sort" props);
                ("city", lookup "city" props);
                ("countryCode", lookup "countryCode" props);
                ("stateCode", lookup "stateCode" props);
                ("classificationName", lookup "classificationName" props) ] |} ]).
Proof.
  intros Ht calls. subst calls. rewrite (invoke_event props Ht). split.
  - intros He id_s Hs. rewrite He. unfold getEvent.
    apply (fetch_calls _ "/events/" _ id_s Hs).
  - intros He. rewrite He. now rewrite settle_calls.
Qed.

(** C3, as the code has it.  A [type] other than the three kinds sends no
    request and throws; the [McpError] built with [InvalidParams] is thrown
    inside the [try], so the [catch] clause receives it and the error that
    leaves the handler has the code [InternalError], its text wrapping the
    message of the first. *)
Theorem unknown_kind_leaves_as_internal_error
  (props : list (string * json)) (type_s : string) :
  is_str "event" (lookup "type" props) = false ->
  is_str "venue" (lookup "type" props) = false ->
  is_str "attraction" (lookup "type" props) = false ->
  to_string_val (lookup "type" props) = inr type_s ->
  invoke transport (search_request props)
  = ([], inl (McpError InternalError
                ("Error: "
                 ++ mcp_message InvalidParams
                      ("Invalid search type: " ++ type_s
                       ++ ". Must be 'event', 'venue', or 'attraction'.")))).
Proof.
  intros He Hv Ha Hs. rewrite invoke_search_request. unfold route.
  simpl arg_type. rewrite He, Hv, Ha, after_bind_id, Hs. reflexivity.
Qed.

(** The rendering reads [type] and [format] only. *)
Lemma render_ext (a a' : tool_args) results :
  arg_type a = arg_type a' -> arg_format a = arg_format a' ->
  render a results = render a' results.
Proof. intros Ht Hf. unfold render. now rewrite Ht, Hf. Qed.

Lemma settle_ext (a a' : tool_args) u p :
  arg_type a = arg_type a' -> arg_format a = arg_format a' ->
  settle transport a u p = settle transport a' u p.
Proof.
  intros Ht Hf. rewrite !settle_eq.
  destruct (transport _) as [r|]; [|reflexivity].
  now rewrite (render_ext a a' (data r) Ht Hf).
Qed.

(** C10.  An identifier given as the empty string is treated as absent:
    with [eventId = ""] an event request is the search [GET /events], with
    [venueId = ""] a venue request is the search [GET /venues], with
    [attractionId = ""] an attraction request is the search
    [GET /attractions]; and in each case the requests sent and the outcome
    are those of the same arguments without the identifier. *)
Theorem empty_identifier_is_absent (props props' : list (string * json)) :
  (lookup "type" props = Some (JStr "event") ->
   lookup "eventId" props = Some (JStr "") ->
     fst (invoke transport (search_request props))
     = [ {| url := "/events";
            params := Some (event_search_params (args_of props)) |} ]
     /\ (without "eventId" props props' ->
         invoke transport (search_request props)
         = invoke transport (search_request props')))
  /\
  (lookup "type" props = Some (JStr "venue") ->
   lookup "venueId" props = Some (JStr "") ->
     fst (invoke transport (search_request props))
     = [ {| url := "/venues";
            params := Some (venue_search_params (args_of props)) |} ]
     /\ (without "venueId" props props' ->
         invoke transport (search_request props)
         = invoke transport (search_request props')))
  /\
  (lookup "type" props = Some (JStr "attraction") ->
   lookup "attractionId" props = Some (JStr "") ->
     fst (invoke transport (search_request props))
     = [ {| url := "/attractions";
            params := Some (attraction_search_params (args_of props)) |} ]
     /\ (without "attractionId" props props' ->
         invoke transport (search_request props)
         = invoke transport (search_request props'))).
Proof.
  split; [|split]; intros Ht Hid.
  - rewrite (invoke_event props Ht), Hid. simpl truthy. cbv iota.
    split; [apply settle_calls|]. intros [Hnone Hsame].
    assert (Ht' : lookup "type" props' = Some (JStr "event"))
      by (rewrite Hsame by discriminate; exact Ht).
    rewrite (invoke_event props' Ht'), Hnone. simpl truthy. cbv iota.
    assert (Hp : event_search_params (args_of props')
                 = event_search_params (args_of props)).
    { unfold event_search_params, args_of. simpl.
      repeat (rewrite Hsame by discriminate). reflexivity. }
    rewrite Hp. apply settle_ext; simpl;
      repeat (rewrite Hsame by discriminate); reflexivity.
  - rewrite (invoke_venue props Ht), Hid. simpl truthy. simpl andb. cbv iota.
    split; [apply settle_calls|]. intros [Hnone Hsame].
    assert (Ht' : lookup "type" props' = Some (JStr "venue"))
      by (rewrite Hsame by discriminate; exact Ht).
    rewrite (invoke_venue props' Ht'), Hnone. simpl truthy. simpl andb. cbv iota.
    assert (Hp : venue_search_params (args_of props')
                 = venue_search_params (args_of props)).
    { unfold venue_search_params, args_of. simpl.
      repeat (rewrite Hsame by discriminate). reflexivity. }
    rewrite Hp. apply settle_ext; simpl;
      repeat (rewrite Hsame by discriminate); reflexivity.
  - rewrite (invoke_attraction props Ht), Hid. simpl truthy. simpl andb. cbv iota.
    split; [apply settle_calls|]. intros [Hnone Hsame].
    assert (Ht' : lookup "type" props' = Some (JStr "attraction"))
      by (rewrite Hsame by discriminate; exact Ht).
    rewrite (invoke_attraction props' Ht'), Hnone. simpl truthy. simpl andb.
    cbv iota.
    assert (Hp : attraction_search_params (args_of props')
                 = attraction_search_params (args_of props)).
    { unfold attraction_search_params, args_of. simpl.
      repeat (rewrite Hsame by discriminate). reflexivity. }
    rewrite Hp. apply settle_ext; simpl;
      repeat (rewrite Hsame by discriminate); reflexivity.
Qed.

(** C9.  Two argument objects that agree on every field other than
    [marketId], [onsaleStartDateTime], [onsaleEndDateTime], [locale] and
    [source] give the same invocation: the same requests sent and the same
    outcome, whatever the kind; and none of these fields is a parameter of
    any of the three searches. *)
Theorem unread_fields_do_not_matter (props1 props2 : list (string * json)) :
  (forall k, ~ In k unread_fields -> lookup k props1 = lookup k props2) ->
  invoke transport (search_request props1)
  = invoke transport (search_request props2)
  /\ forall k (a : tool_args (num:=num)), In k unread_fields ->
       param k (event_search_params a) = None
       /\ param k (venue_search_params a) = None
       /\ param k (attraction_search_params a) = None.
Proof.
  intros Hsame. split.
  2:{ intros k a Hk. unfold unread_fields in Hk. simpl in Hk.
      repeat (destruct Hk as [<-|Hk]; [repeat split|]). contradiction. }
  rewrite !invoke_search_request.
  assert (Ha : args_of props1 = args_of props2).
  { unfold args_of.
    repeat match goal with
    | |- context [lookup ?k props1] =>
        rewrite (Hsame k)
          by (unfold unread_fields; simpl; intuition discriminate)
    end.
    reflexivity. }
  now rewrite Ha.
Qed.

End Router.

(** ** Failures of the upstream call *)

Section Failures.

Context {num : Type} {NumOps : JSNumber num} {HostOps : Host}.
Variable transport : http_request (num:=num) -> option (http_response num).

#[local] Abbreviation json := (json num).
#[local] Abbreviation jsval := (jsval num).

(** String conversion throws one error only. *)
Lemma to_string_error (v : json) (e : js_error num) :
  to_string v = inl e -> e = TypeError CannotConvertToPrimitive.
Proof.
  revert e.
  induction v as [| b | n | s | items IH | props IH] using json_ind;
    intros e; simpl; try discriminate.
  - destruct b; discriminate.
  - set (elems := fix elems (l : list json) : R num (list string) :=
                    match l with
                    | [] => ret []
                    | x :: r =>
                        s <- match x with JNull => ret "" | _ => to_string x end ;;
                        ss <- elems r ;;
                        ret (s :: ss)
                    end).
    assert (He : forall e, elems items = inl e ->
                           e = TypeError CannotConvertToPrimitive).
    { induction IH as [|x r Hx _ IHr]; intros e'; simpl; [discriminate|].
      assert (Hm : forall e0,
        match x with JNull => ret "" | _ => to_string x end = inl e0 ->
        e0 = TypeError CannotConvertToPrimitive).
      { intros e0. destruct x; try apply Hx. discriminate. }
      destruct (match x with JNull => ret "" | _ => to_string x end) as [e0|s0];
        simpl.
      - intros [= <-]. now apply Hm.
      - destruct (elems r) as [e1|ss]; simpl; [|discriminate].
        intros [= <-]. now apply IHr. }
    destruct (elems items) eqn:E; simpl; [|discriminate].
    intros [= <-]. now apply He.
  - destruct (has_key "toString" props); simpl; [|discriminate].
    now intros [= <-].
Qed.

Lemma to_string_val_error (v : jsval) (e : js_error num) :
  to_string_val v = inl e -> e = TypeError CannotConvertToPrimitive.
Proof. destruct v; simpl; [apply to_string_error | discriminate]. Qed.

Lemma read_body_message (r : http_response num) :
  opt_get (Some (data r)) "message" = inr (body_message r).
Proof. unfold body_message. now destruct (data r). Qed.




End Failures.

(** ** The response formatter *)

Section FormatterFacts.

Context {num : Type} {NumOps : JSNumber num} {HostOps : Host}.

#[local] Abbreviation json := (json num).
#[local] Abbreviation jsval := (jsval num).

Lemma missing_falsy (v : jsval) : missing v = true -> truthy v = false.
Proof. destruct v as [[]|]; simpl; congruence. Qed.

Lemma none_listed_nonempty (v : jsval) :
  none_listed v = true -> nonempty v = inr false.
Proof.
  destruct v as [[| | | |items|]|]; simpl; try congruence; try reflexivity.
  destruct items; [|discriminate]. intros _.
  unfold nonempty. simpl. unfold ret. f_equal. apply num_gt0_of_Z.
Qed.

Lemma no_start_read props :
  no_start props = true ->
  exists start,
    opt_get (lookup "dates" props) "start" = inr start /\ truthy start = false.
Proof.
  unfold no_start.
  destruct (lookup "dates" props) as [[| | | | |dates]|]; simpl;
    try discriminate; intros H.
  - now exists None.
  - exists (lookup "start" dates). split; [reflexivity | now apply missing_falsy].
  - now exists None.
Qed.

Lemma no_venues_read props :
  no_venues props = true ->
  exists venues,
    opt_get (lookup "_embedded" props) "venues" = inr venues
    /\ nonempty venues = inr false.
Proof.
  unfold no_venues.
  destruct (lookup "_embedded" props) as [[| | | | |embedded]|]; simpl;
    try discriminate; intros H.
  - now exists None.
  - exists (lookup "venues" embedded).
    split; [reflexivity | now apply none_listed_nonempty].
  - now exists None.
Qed.

Lemma no_url_falsy props : no_url props = true -> truthy (lookup "url" props) = false.
Proof.
  unfold no_url.
  destruct (lookup "url" props) as [[| | |s| |]|]; simpl; try congruence.
  now intros ->.
Qed.

(** C6.  An event record with no start date/time block, no embedded
    venues, no price ranges and no URL is projected to the single line
    [Event: <name> (ID: <id>)], with nothing after it. *)
Theorem bare_event_is_one_line
  (props : list (string * json)) (name_s id_s : string) :
  to_string_val (lookup "name" props) = inr name_s ->
  to_string_val (lookup "id" props) = inr id_s ->
  no_start props = true ->
  no_venues props = true ->
  no_price_ranges props = true ->
  no_url props = true ->
  formatEventAsText (Some (JObj props))
  = inr ("Event: " ++ name_s ++ " (ID: " ++ id_s ++ ")").
Proof.
  intros Hn Hi Hs Hv Hp Hu.
  destruct (no_start_read props Hs) as (start & Es & Fs).
  destruct (no_venues_read props Hv) as (venues & Ev & Fv).
  pose proof (none_listed_nonempty _ Hp) as Fp.
  pose proof (no_url_falsy props Hu) as Fu.
  unfold formatEventAsText. simpl get. unfold ret at 1 2. simpl bind.
  rewrite Hn. simpl bind. rewrite Hi. simpl bind.
  rewrite Es. simpl bind. rewrite Fs. simpl push_if. simpl bind.
  rewrite Ev. simpl bind. rewrite Fv. simpl bind.
  rewrite Fp. simpl bind. rewrite Fu. reflexivity.
Qed.

Lemma headed_push c lines l : headed c lines -> headed c (push lines l).
Proof. intros (t & rest & ->). now exists t, (rest ++ [l])%list. Qed.

Lemma headed_push_if c cond lines (l : R num string) lines' :
  headed c lines -> push_if cond lines l = inr lines' -> headed c lines'.
Proof.
  intros Hh. unfold push_if. destruct cond.
  - destruct l as [e|x]; simpl; [discriminate|].
    intros [= <-]. now apply headed_push.
  - intros [= <-]. exact Hh.
Qed.

Lemma headed_concat c sep lines :
  headed c lines -> exists t, String.concat sep lines = String c t.
Proof.
  intros (t & rest & ->). destruct rest; simpl; eauto.
Qed.

#[local] Ltac bind_inv H :=
  match type of H with
  | bind ?m _ = inr _ =>
      let E := fresh "E" in
      destruct m eqn:E; [discriminate H | simpl bind in H]
  end.

Lemma formatEventAsText_head (event : jsval) p :
  formatEventAsText event = inr p -> exists t, p = String "E" t.
Proof.
  unfold formatEventAsText. intros H.
  do 7 bind_inv H.
  match goal with
  | E : push_if _ ?l0 _ = inr ?l |- _ =>
      assert (H1 : headed "E" l)
        by (apply (headed_push_if _ _ _ _ _ (ex_intro _ _ (ex_intro _ [] eq_refl)) E));
      clear E
  end.
  do 4 bind_inv H.
  match goal with
  | E : (if ?c then _ else _) = inr ?l |- _ =>
      assert (H2 : headed "E" l);
      [ destruct c;
        [ do 5 bind_inv E;
          apply (headed_push_if _ _ _ _ _ (headed_push _ _ _ H1) E)
        | injection E as <-; exact H1 ]
      | clear E ]
  end.
  do 3 bind_inv H.
  match goal with
  | E : push_if _ _ _ = inr ?l |- _ =>
      pose proof (headed_push_if _ _ _ _ _ H2 E) as H3; clear E
  end.
  do 2 bind_inv H.
  match goal with
  | E : push_if _ _ _ = inr ?l |- _ =>
      pose proof (headed_push_if _ _ _ _ _ H3 E) as H4; clear E
  end.
  injection H as <-. now apply headed_concat.
Qed.

Lemma formatVenueAsText_head (venue : jsval) p :
  formatVenueAsText venue = inr p -> exists t, p = String "V" t.
Proof.
  unfold formatVenueAsText. intros H.
  do 7 bind_inv H.
  match goal with
  | E : push_if _ ?l0 _ = inr ?l |- _ =>
      assert (H1 : headed "V" l)
        by (apply (headed_push_if _ _ _ _ _ (ex_intro _ _ (ex_intro _ [] eq_refl)) E));
      clear E
  end.
  do 3 bind_inv H.
  match goal with
  | E : push_if _ _ _ = inr ?l |- _ =>
      pose proof (headed_push_if _ _ _ _ _ H1 E) as H2; clear E
  end.
  do 2 bind_inv H.
  match goal with
  | E : push_if _ _ _ = inr ?l |- _ =>
      pose proof (headed_push_if _ _ _ _ _ H2 E) as H3; clear E
  end.
  injection H as <-. now apply headed_concat.
Qed.

Lemma formatAttractionAsText_head (attraction : jsval) p :
  formatAttractionAsText attraction = inr p -> exists t, p = String "A" t.
Proof.
  unfold formatAttractionAsText. intros H.
  do 6 bind_inv H.
  bind_inv H.
  match goal with
  | E : (if ?c then _ else _) = inr ?l |- _ =>
      assert (H1 : headed "A" l);
      [ destruct c;
        [ do 6 bind_inv E;
          apply (headed_push_if _ _ _ _ _ (ex_intro _ _ (ex_intro _ [] eq_refl)) E)
        | injection E as <-; now eexists _, _ ]
      | clear E ]
  end.
  do 2 bind_inv H.
  match goal with
  | E : push_if _ _ _ = inr ?l |- _ =>
      pose proof (headed_push_if _ _ _ _ _ H1 E) as H2; clear E
  end.
  injection H as <-. now apply headed_concat.
Qed.

Lemma mapM_Forall2 {A B} (f : A -> R num B) (l : list A) (ys : list B) :
  Forall2 (fun x y => f x = inr y) l ys -> mapM f l = inr ys.
Proof.
  induction 1 as [|x y l ys Hx _ IH]; simpl; [reflexivity|].
  now rewrite Hx, IH.
Qed.

Lemma render_text (a : tool_args) (results : json) :
  is_str "text" (arg_format a) = true ->
  render a results
  = (textOutput <- text_output (arg_type a) results ;;
     ret (text_result (or_no_results textOutput))).
Proof. intros Hf. unfold render. now rewrite Hf. Qed.

(** The joined projections of a list: the sentinel for the empty list, the
    join itself otherwise, since a projection is never empty. *)
Lemma joined_or_no_results {A} (c : ascii) (f : A -> R num string)
  (items : list A) (ps : list string) :
  (forall x p, f x = inr p -> exists t, p = String c t) ->
  Forall2 (fun x p => f x = inr p) items ps ->
  or_no_results (String.concat separator ps)
  = match items with
    | [] => "No results found."
    | _ :: _ => String.concat separator ps
    end.
Proof.
  intros Hhead Hall. destruct Hall as [|x p items ps Hp Hrest]; [reflexivity|].
  destruct (Hhead x p Hp) as (t & ->).
  unfold or_no_results. now destruct ps.
Qed.

Lemma is_str_eq (s : string) (v : jsval) :
  is_str s v = true -> v = Some (JStr s).
Proof.
  destruct v as [[| | |s'| |]|]; simpl; try discriminate.
  now intros ->%String.eqb_eq.
Qed.

(** C5.  In text mode, on a body whose [_embedded] wrapper is an object:
    if it holds an [events] array, [textOutput] is the join, with the
    separator, of the event projections of its elements in their order;
    otherwise, if it holds a [venues] array, of the venue projections;
    otherwise, if it holds an [attractions] array, of the attraction
    projections.  The text returned is that join (the sentinel text when
    the array is empty).  A body embedding two venues gives the first
    projection, the separator, the second. *)
Theorem embedded_collection_is_joined
  (a : tool_args) (rprops eprops : list (string * json)) :
  is_str "text" (arg_format a) = true ->
  lookup "_embedded" rprops = Some (JObj eprops) ->
  separator = nl ++ nl ++ "---" ++ nl ++ nl
  /\
  (forall events ps,
     lookup "events" eprops = Some (JArr events) ->
     Forall2 (fun e p => formatEventAsText (Some e) = inr p) events ps ->
     text_output (arg_type a) (JObj rprops) = inr (String.concat separator ps)
     /\ render a (JObj rprops)
        = inr (text_result
                 match events with
                 | [] => "No results found."
                 | _ :: _ => String.concat separator ps
                 end))
  /\
  (forall venues ps,
     truthy (lookup "events" eprops) = false ->
     lookup "venues" eprops = Some (JArr venues) ->
     Forall2 (fun v p => formatVenueAsText (Some v) = inr p) venues ps ->
     text_output (arg_type a) (JObj rprops) = inr (String.concat separator ps)
     /\ render a (JObj rprops)
        = inr (text_result
                 match venues with
                 | [] => "No results found."
                 | _ :: _ => String.concat separator ps
                 end))
  /\
  (forall attractions ps,
     truthy (lookup "events" eprops) = false ->
     truthy (lookup "venues" eprops) = false ->
     lookup "attractions" eprops = Some (JArr attractions) ->
     Forall2 (fun x p => formatAttractionAsText (Some x) = inr p) attractions ps ->
     text_output (arg_type a) (JObj rprops) = inr (String.concat separator ps)
     /\ render a (JObj rprops)
        = inr (text_result
                 match attractions with
                 | [] => "No results found."
                 | _ :: _ => String.concat separator ps
                 end))
  /\
  (forall v1 v2 p1 p2,
     truthy (lookup "events" eprops) = false ->
     lookup "venues" eprops = Some (JArr [v1; v2]) ->
     formatVenueAsText (Some v1) = inr p1 ->
     formatVenueAsText (Some v2) = inr p2 ->
     render a (JObj rprops)
     = inr (text_result (p1 ++ separator ++ p2))).
Proof.
  intros Hf He.
  assert (Hvenues : forall venues ps,
     truthy (lookup "events" eprops) = false ->
     lookup "venues" eprops = Some (JArr venues) ->
     Forall2 (fun v p => formatVenueAsText (Some v) = inr p) venues ps ->
     text_output (arg_type a) (JObj rprops) = inr (String.concat separator ps)
     /\ render a (JObj rprops)
        = inr (text_result
                 match venues with
                 | [] => "No results found."
                 | _ :: _ => String.concat separator ps
                 end)).
  { intros venues ps Hev Hv Hall.
    assert (Ho : text_output (arg_type a) (JObj rprops)
                 = inr (String.concat separator ps)).
    { unfold text_output. simpl get. rewrite He. simpl.
      rewrite Hev, Hv. simpl. now rewrite (mapM_Forall2 _ _ _ Hall). }
    split; [exact Ho|].
    rewrite (render_text a _ Hf), Ho. simpl. unfold ret. do 2 f_equal.
    exact (joined_or_no_results "V" _ venues ps
             (fun x p => formatVenueAsText_head (Some x) p) Hall). }
  split; [reflexivity|]. split; [|split; [exact Hvenues|split]].
  - intros events ps Hev Hall.
    assert (Ho : text_output (arg_type a) (JObj rprops)
                 = inr (String.concat separator ps)).
    { unfold text_output. simpl get. rewrite He. simpl.
      rewrite Hev. simpl. now rewrite (mapM_Forall2 _ _ _ Hall). }
    split; [exact Ho|].
    rewrite (render_text a _ Hf), Ho. simpl. unfold ret. do 2 f_equal.
    exact (joined_or_no_results "E" _ events ps
             (fun x p => formatEventAsText_head (Some x) p) Hall).
  - intros attractions ps Hev Hv Hat Hall.
    assert (Ho : text_output (arg_type a) (JObj rprops)
                 = inr (String.concat separator ps)).
    { unfold text_output. simpl get. rewrite He. simpl.
      rewrite Hev, Hv, Hat. simpl. now rewrite (mapM_Forall2 _ _ _ Hall). }
    split; [exact Ho|].
    rewrite (render_text a _ Hf), Ho. simpl. unfold ret. do 2 f_equal.
    exact (joined_or_no_results "A" _ attractions ps
             (fun x p => formatAttractionAsText_head (Some x) p) Hall).
  - intros v1 v2 p1 p2 Hev Hv H1 H2.
    exact (proj2 (Hvenues [v1; v2] [p1; p2] Hev Hv
             (Forall2_cons _ _ H1 (Forall2_cons _ _ H2 (Forall2_nil _))))).
Qed.

(** With a wrapper the handler takes as present, the rendering does not
    read the kind; without one, the kind selects the projection. *)
Lemma render_reads_kind_only_without_wrapper
  (a1 a2 : tool_args) (results : json) (embedded : jsval) :
  is_str "text" (arg_format a1) = true ->
  is_str "text" (arg_format a2) = true ->
  get (Some results) "_embedded" = inr embedded ->
  (truthy embedded = true -> render a1 results = render a2 results)
  /\
  (truthy embedded = false ->
     (is_str "event" (arg_type a1) = true ->
        text_output (arg_type a1) results = formatEventAsText (Some results))
     /\ (is_str "venue" (arg_type a1) = true ->
        text_output (arg_type a1) results = formatVenueAsText (Some results))
     /\ (is_str "attraction" (arg_type a1) = true ->
        text_output (arg_type a1) results
        = formatAttractionAsText (Some results))).
Proof.
  intros Hf1 Hf2 Hg. split; intros Ht.
  - rewrite (render_text a1 _ Hf1), (render_text a2 _ Hf2).
    unfold text_output. rewrite Hg. simpl bind. now rewrite Ht.
  - unfold text_output. rewrite Hg. simpl bind. rewrite Ht.
    repeat split; intros Hk; apply is_str_eq in Hk; rewrite Hk; reflexivity.
Qed.

(** C8.  In text mode the kind of the request does not enter the output
    when the body has an [_embedded] wrapper: two requests that differ in
    their kind render such a body alike, so the projection applied depends
    on the embedded arrays alone.  When the body has no [_embedded] field,
    the kind selects the projection applied to the body. *)
Theorem kind_selects_only_without_wrapper
  (a1 a2 : tool_args) (rprops : list (string * json)) :
  is_str "text" (arg_format a1) = true ->
  is_str "text" (arg_format a2) = true ->
  (forall eprops, lookup "_embedded" rprops = Some (JObj eprops) ->
     render a1 (JObj rprops) = render a2 (JObj rprops))
  /\
  (lookup "_embedded" rprops = None ->
     (arg_type a1 = Some (JStr "event") ->
        text_output (arg_type a1) (JObj rprops)
        = formatEventAsText (Some (JObj rprops)))
     /\ (arg_type a1 = Some (JStr "venue") ->
        text_output (arg_type a1) (JObj rprops)
        = formatVenueAsText (Some (JObj rprops)))
     /\ (arg_type a1 = Some (JStr "attraction") ->
        text_output (arg_type a1) (JObj rprops)
        = formatAttractionAsText (Some (JObj rprops)))).
Proof.
  intros Hf1 Hf2.
  pose proof (render_reads_kind_only_without_wrapper a1 a2 (JObj rprops)
                (lookup "_embedded" rprops) Hf1 Hf2 eq_refl) as [Hwith Hwithout].
  split.
  - intros eprops He. apply Hwith. now rewrite He.
  - intros He. rewrite He in Hwithout. specialize (Hwithout eq_refl).
    destruct Hwithout as (H1 & H2 & H3).
    repeat split; intros Hk;
      [apply H1 | apply H2 | apply H3]; now rewrite Hk.
Qed.

End FormatterFacts.

(** ** Reading back what [JSON.stringify] writes *)

Section Roundtrip.

Context {num : Type} {NumOps : JSNumber num}.

#[local] Abbreviation json := (json num).

Lemma blank_append a b : blank a = true -> blank b = true -> blank (a ++ b) = true.
Proof.
  induction a as [|c a IH]; simpl; [trivial|].
  intros [Hc Ha]%andb_prop Hb. now rewrite Hc, IH.
Qed.

Lemma skip_ws_blank ws s : blank ws = true -> skip_ws (ws ++ s) = skip_ws s.
Proof.
  induction ws as [|c ws IH]; simpl; [trivial|].
  intros [Hc Hw]%andb_prop. rewrite Hc. now apply IH.
Qed.

Lemma skip_ws_stop c s : is_ws c = false -> skip_ws (String c s) = String c s.
Proof. intros H. simpl. now rewrite H. Qed.

(** *** Strings *)

Lemma parse_escaped_char (c : ascii) (t : string) :
  parse_string_body (escape_char c ++ t) = cons_char c (parse_string_body t).
Proof.
  destruct c as [[] [] [] [] [] [] [] []]; reflexivity.
Qed.

Lemma parse_escaped (s rest : string) :
  parse_string_body (escape s ++ dquote ++ rest) = Some (s, rest).
Proof.
  induction s as [|c s IH]; [reflexivity|].
  change (escape (String c s)) with (escape_char c ++ escape s).
  now rewrite append_assoc, parse_escaped_char, IH.
Qed.

(** *** The first character of a serialization *)

Lemma serialize_head (ind : string) (v : json) :
  exists c s, serialize ind v = String c s /\ value_start c = true.
Proof.
  destruct v as [|[]|n|s|[|x r]|[|kv r]]; try (eexists _, _; split; reflexivity).
  cbn [serialize]. destruct (num_is_finite n) eqn:Ef;
    [|eexists _, _; split; reflexivity].
  destruct (num_to_string_head n Ef) as (c & s & E & Hc).
  exists c, s. split; [exact E|]. unfold value_start. now rewrite Hc.
Qed.

Lemma value_start_facts (c : ascii) :
  value_start c = true ->
  is_ws c = false /\ Ascii.eqb c "]" = false /\ Ascii.eqb c "}" = false.
Proof.
  destruct c as [[] [] [] [] [] [] [] []]; vm_compute; intros H;
    (discriminate H || (repeat split)).
Qed.

Lemma number_start_not_ws (c : ascii) : number_start c = true -> is_ws c = false.
Proof.
  intros H. apply value_start_facts. unfold value_start. now rewrite H.
Qed.

(** *** Distinct keys, unfolded *)

Lemma distinct_keys_arr (items : list json) :
  distinct_keys (JArr items) <-> Forall distinct_keys items.
Proof.
  simpl. induction items as [|x r IH].
  - split; [constructor | trivial].
  - split.
    + intros [Hx Hr]. constructor; [exact Hx | now apply IH].
    + intros H. inversion H; subst. split; [assumption | now apply IH].
Qed.

Lemma distinct_keys_obj (props : list (string * json)) :
  distinct_keys (JObj props)
  <-> NoDup (map fst props) /\ Forall (fun kv => distinct_keys (snd kv)) props.
Proof.
  simpl. apply and_iff_compat_l. induction props as [|kv r IH].
  - split; [constructor | trivial].
  - split.
    + intros [Hx Hr]. constructor; [exact Hx | now apply IH].
    + intros H. inversion H; subst. split; [assumption | now apply IH].
Qed.

Lemma plain_numbers_arr (items : list json) :
  plain_numbers (JArr items) <-> Forall plain_numbers items.
Proof.
  simpl. induction items as [|x r IH].
  - split; [constructor | trivial].
  - split.
    + intros [Hx Hr]. constructor; [exact Hx | now apply IH].
    + intros H. inversion H; subst. split; [assumption | now apply IH].
Qed.

Lemma plain_numbers_obj (props : list (string * json)) :
  plain_numbers (JObj props)
  <-> Forall (fun kv => plain_numbers (snd kv)) props.
Proof.
  simpl. induction props as [|kv r IH].
  - split; [constructor | trivial].
  - split.
    + intros [Hx Hr]. constructor; [exact Hx | now apply IH].
    + intros H. inversion H; subst. split; [assumption | now apply IH].
Qed.

(** *** Objects are rebuilt as they were *)

Lemma set_prop_fresh (k : string) (v : json) (acc : list (string * json)) :
  ~ In k (map fst acc) -> set_prop k v acc = (acc ++ [(k, v)])%list.
Proof.
  induction acc as [|[k' v'] acc IH]; simpl; [reflexivity|].
  intros H. destruct (String.eqb_spec k k') as [->|Hne].
  - exfalso. apply H. now left.
  - rewrite IH; [reflexivity|]. intros Hin. apply H. now right.
Qed.

Lemma rebuild (props acc : list (string * json)) :
  NoDup (map fst (acc ++ props)%list) ->
  fold_left (fun acc kv => set_prop (fst kv) (snd kv) acc) props acc
  = (acc ++ props)%list.
Proof.
  revert acc. induction props as [|[k v] props IH]; intros acc Hnd; simpl.
  - now rewrite app_nil_r.
  - rewrite set_prop_fresh.
    + rewrite IH; rewrite <- app_assoc; [reflexivity | exact Hnd].
    + rewrite map_app in Hnd. simpl in Hnd.
      apply NoDup_remove_2 in Hnd. intros Hin. apply Hnd.
      apply in_or_app. now left.
Qed.

Lemma build_object_distinct (props : list (string * json)) :
  NoDup (map fst props) -> build_object props = JObj props.
Proof. intros H. unfold build_object. now rewrite rebuild. Qed.

(** *** One step of the reader *)

Lemma parse_value_ws fuel ws s :
  blank ws = true -> parse_value fuel (ws ++ s) = parse_value fuel s.
Proof.
  intros H. destruct fuel; [reflexivity|].
  cbn [parse_value]. now rewrite skip_ws_blank.
Qed.

Lemma parse_elements_ws fuel ws s :
  blank ws = true -> parse_elements fuel (ws ++ s) = parse_elements fuel s.
Proof.
  intros H. destruct fuel; [reflexivity|].
  cbn [parse_elements]. now rewrite parse_value_ws.
Qed.

Lemma parse_members_ws fuel ws s :
  blank ws = true -> parse_members fuel (ws ++ s) = parse_members fuel s.
Proof.
  intros H. destruct fuel; [reflexivity|].
  cbn [parse_members]. now rewrite skip_ws_blank.
Qed.

Lemma parse_number fuel c r :
  number_start c = true ->
  parse_value (S fuel) (String c r)
  = match num_parse (String c r) with
    | Some (n, rest) => Some (JNum n, rest)
    | None => None
    end.
Proof.
  intros H. cbn [parse_value].
  rewrite (skip_ws_stop c r (number_start_not_ws c H)). now rewrite H.
Qed.

Lemma parse_quoted fuel r :
  parse_value (S fuel) (String "034" r)
  = match parse_string_body r with
    | Some (s', rest) => Some (JStr s', rest)
    | None => None
    end.
Proof. reflexivity. Qed.

Lemma parse_open_array fuel r :
  parse_value (S fuel) (String "[" r)
  = match skip_ws r with
    | EmptyString => None
    | String c' r' =>
        if Ascii.eqb c' "]" then Some (JArr [], r')
        else match parse_elements fuel (String c' r') with
             | Some (items, rest) => Some (JArr items, rest)
             | None => None
             end
    end.
Proof. reflexivity. Qed.

Lemma parse_open_object fuel r :
  parse_value (S fuel) (String "{" r)
  = match skip_ws r with
    | EmptyString => None
    | String c' r' =>
        if Ascii.eqb c' "}" then Some (JObj [], r')
        else match parse_members fuel (String c' r') with
             | Some (members, rest) => Some (build_object members, rest)
             | None => None
             end
    end.
Proof. reflexivity. Qed.

Lemma parse_elements_step fuel s :
  parse_elements (S fuel) s
  = match parse_value fuel s with
    | Some (v, rest) =>
        match skip_ws rest with
        | EmptyString => None
        | String c rest' =>
            if Ascii.eqb c "," then
              match parse_elements fuel rest' with
              | Some (vs, rest'') => Some (v :: vs, rest'')
              | None => None
              end
            else if Ascii.eqb c "]" then Some ([v], rest')
            else None
        end
    | None => None
    end.
Proof. reflexivity. Qed.

Lemma parse_members_step fuel r :
  parse_members (S fuel) (String "034" r)
  = match parse_string_body r with
    | Some (k, rest) =>
        match skip_ws rest with
        | EmptyString => None
        | String colon rest' =>
            if Ascii.eqb colon ":" then
              match parse_value fuel rest' with
              | Some (v, rest'') =>
                  match skip_ws rest'' with
                  | EmptyString => None
                  | String c rest3 =>
                      if Ascii.eqb c "," then
                        match parse_members fuel rest3 with
                        | Some (ms, rest4) => Some ((k, v) :: ms, rest4)
                        | None => None
                        end
                      else if Ascii.eqb c "}" then Some ([(k, v)], rest3)
                      else None
                  end
              | None => None
              end
            else None
        end
    | None => None
    end.
Proof. reflexivity. Qed.

(** *** The round trip *)

Lemma blank_nl_ind ind : blank ind = true -> blank (nl ++ ind) = true.
Proof. intros H. now apply blank_append. Qed.

Lemma elements_read_back (ind ind' rest : string) (items : list json) :
  Forall reads_back items -> items <> [] ->
  blank ind = true -> blank ind' = true ->
  forall fuel,
    list_sum (map (fun x => S (weight x)) items) <= fuel ->
    parse_elements fuel
      (String.concat ("," ++ nl ++ ind') (map (fun x => serialize ind' x) items)
       ++ nl ++ ind ++ "]" ++ rest)
    = Some (items, rest).
Proof.
  intros Hall Hne Hi Hi'. induction Hall as [|x r Hx Hr IH]; [congruence|].
  intros fuel Hfuel. simpl in Hfuel.
  destruct fuel as [|fuel]; [lia|]. rewrite parse_elements_step.
  destruct r as [|y r].
  - cbn [map String.concat].
    rewrite (Hx ind' (nl ++ ind ++ "]" ++ rest) fuel Hi' eq_refl) by (simpl in *; lia).
    rewrite <- append_assoc, (skip_ws_blank _ _ (blank_nl_ind ind Hi)).
    reflexivity.
  - set (more := String.concat ("," ++ nl ++ ind')
                   (map (fun x => serialize ind' x) (y :: r))) in *.
    set (tail := nl ++ ind ++ "]" ++ rest) in *.
    assert (E : String.concat ("," ++ nl ++ ind')
                  (map (fun x => serialize ind' x) (x :: y :: r)) ++ tail
                = serialize ind' x ++ String "," ((nl ++ ind') ++ more ++ tail)).
    { change (String.concat ("," ++ nl ++ ind')
                (map (fun x => serialize ind' x) (x :: y :: r)))
        with (serialize ind' x ++ ("," ++ nl ++ ind') ++ more).
      now rewrite !append_assoc. }
    rewrite E.
    rewrite (Hx ind' (String "," ((nl ++ ind') ++ more ++ tail)) fuel Hi' eq_refl)
      by lia.
    rewrite (skip_ws_stop "," _ eq_refl).
    change (Ascii.eqb "," ",") with true. cbv iota.
    rewrite (parse_elements_ws _ _ _ (blank_nl_ind ind' Hi')).
    rewrite IH by (congruence || lia). reflexivity.
Qed.

Lemma members_read_back (ind ind' rest : string) (props : list (string * json)) :
  Forall (fun kv => reads_back (snd kv)) props -> props <> [] ->
  blank ind = true -> blank ind' = true ->
  forall fuel,
    list_sum (map (fun kv => S (weight (snd kv))) props) <= fuel ->
    parse_members fuel
      (String.concat ("," ++ nl ++ ind')
         (map (fun kv => quote (fst kv) ++ ": " ++ serialize ind' (snd kv)) props)
       ++ nl ++ ind ++ "}" ++ rest)
    = Some (props, rest).
Proof.
  intros Hall Hne Hi Hi'. induction Hall as [|[k x] r Hx Hr IH]; [congruence|].
  intros fuel Hfuel. simpl in Hfuel. simpl snd in Hx.
  destruct fuel as [|fuel]; [lia|].
  set (tail := nl ++ ind ++ "}" ++ rest) in *.
  assert (Hmember : forall after_value,
    number_boundary after_value = true ->
    parse_members (S fuel)
      ((quote k ++ ": " ++ serialize ind' x) ++ after_value)
    = match skip_ws after_value with
      | EmptyString => None
      | String c rest3 =>
          if Ascii.eqb c "," then
            match parse_members fuel rest3 with
            | Some (ms, rest4) => Some ((k, x) :: ms, rest4)
            | None => None
            end
          else if Ascii.eqb c "}" then Some ([(k, x)], rest3)
          else None
      end).
  { intros after_value Hb. unfold quote.
    rewrite !append_assoc.
    change (dquote ++ ?t) with (String "034" t).
    rewrite parse_members_step, parse_escaped.
    change (": " ++ ?t) with (String ":" (" " ++ t)).
    rewrite (skip_ws_stop ":" _ eq_refl).
    change (Ascii.eqb ":" ":") with true. cbv iota.
    rewrite (parse_value_ws _ " " _ eq_refl).
    now rewrite (Hx ind' after_value fuel Hi' Hb) by lia. }
  destruct r as [|[k' y] r].
  - cbn [map String.concat fst snd]. rewrite Hmember by reflexivity.
    unfold tail.
    rewrite <- append_assoc, (skip_ws_blank _ _ (blank_nl_ind ind Hi)).
    reflexivity.
  - set (more := String.concat ("," ++ nl ++ ind')
                   (map (fun kv => quote (fst kv) ++ ": " ++ serialize ind' (snd kv))
                        ((k', y) :: r))) in *.
    assert (E : String.concat ("," ++ nl ++ ind')
                  (map (fun kv => quote (fst kv) ++ ": " ++ serialize ind' (snd kv))
                       ((k, x) :: (k', y) :: r)) ++ tail
                = (quote k ++ ": " ++ serialize ind' x)
                  ++ String "," ((nl ++ ind') ++ more ++ tail)).
    { change (String.concat ("," ++ nl ++ ind')
                (map (fun kv => quote (fst kv) ++ ": " ++ serialize ind' (snd kv))
                     ((k, x) :: (k', y) :: r)))
        with ((quote k ++ ": " ++ serialize ind' x) ++ ("," ++ nl ++ ind') ++ more).
      now rewrite !append_assoc. }
    rewrite E, Hmember by reflexivity.
    rewrite (skip_ws_stop "," _ eq_refl).
    change (Ascii.eqb "," ",") with true. cbv iota.
    rewrite (parse_members_ws _ _ _ (blank_nl_ind ind' Hi')).
    rewrite IH by (congruence || lia). reflexivity.
Qed.

Lemma Forall_mp {A} (P Q : A -> Prop) (l : list A) :
  Forall (fun x => P x -> Q x) l -> Forall P l -> Forall Q l.
Proof.
  induction 1 as [|x l Hx _ IH]; intros HP; [constructor|].
  inversion HP; subst. constructor; auto.
Qed.

Lemma serialize_reads_back (v : json) :
  distinct_keys v -> plain_numbers v -> reads_back v.
Proof.
  induction v as [| b | n | s | items IH | props IH] using json_ind;
    intros Hd Hplain ind rest fuel Hi Hb Hfuel;
    (destruct fuel as [|fuel]; [simpl in Hfuel; lia|]).
  - reflexivity.
  - destruct b; reflexivity.
  - destruct Hplain as [Hfinite Hzero].
    destruct (num_to_string_head n Hfinite) as (c & s & E & Hc).
    cbn [serialize]. rewrite Hfinite, E. cbn [append].
    rewrite (parse_number fuel c _ Hc).
    change (String c (s ++ rest)) with (String c s ++ rest).
    rewrite <- E. now rewrite (num_parse_to_string n rest Hfinite Hzero Hb).
  - cbn [serialize]. unfold quote. rewrite !append_assoc.
    change (dquote ++ ?t) with (String "034" t).
    now rewrite parse_quoted, parse_escaped.
  - apply distinct_keys_arr in Hd. apply plain_numbers_arr in Hplain.
    pose proof (Forall_mp _ _ _ (Forall_mp _ _ _ IH Hd) Hplain) as Hall.
    destruct items as [|x r]; [reflexivity|].
    change (serialize ind (JArr (x :: r)))
      with ("[" ++ nl ++ (ind ++ gap)
            ++ String.concat ("," ++ nl ++ (ind ++ gap))
                 (map (fun x => serialize (ind ++ gap) x) (x :: r))
            ++ nl ++ ind ++ "]").
    assert (Hg : blank (ind ++ gap) = true) by now apply blank_append.
    set (g := ind ++ gap) in *.
    rewrite !append_assoc.
    change ("[" ++ ?t) with (String "[" t).
    rewrite parse_open_array.
    rewrite <- (append_assoc nl g), (skip_ws_blank _ _ (blank_nl_ind _ Hg)).
    destruct (serialize_head g x) as (c & s & E & Hc).
    destruct (value_start_facts c Hc) as (Hws & Hclose & _).
    assert (Et : exists t,
      String.concat ("," ++ nl ++ g)
        (map (fun x => serialize g x) (x :: r))
      ++ nl ++ ind ++ "]" ++ rest = String c t).
    { cbn [map]. destruct r; cbn [map String.concat]; rewrite E;
        eexists; reflexivity. }
    destruct Et as (t & Et).
    pose proof (elements_read_back ind g rest (x :: r) Hall
                  ltac:(discriminate) Hi Hg fuel
                  ltac:(simpl in Hfuel |- *; lia)) as Hp.
    rewrite Et in *. rewrite (skip_ws_stop c t Hws), Hclose, Hp. reflexivity.
  - apply distinct_keys_obj in Hd. destruct Hd as [Hnd Hd].
    apply plain_numbers_obj in Hplain.
    pose proof (Forall_mp _ _ _ (Forall_mp _ _ _ IH Hd) Hplain) as Hall.
    destruct props as [|kv r]; [reflexivity|].
    change (serialize ind (JObj (kv :: r)))
      with ("{" ++ nl ++ (ind ++ gap)
            ++ String.concat ("," ++ nl ++ (ind ++ gap))
                 (map (fun kv => quote (fst kv) ++ ": "
                                 ++ serialize (ind ++ gap) (snd kv)) (kv :: r))
            ++ nl ++ ind ++ "}").
    assert (Hg : blank (ind ++ gap) = true) by now apply blank_append.
    set (g := ind ++ gap) in *.
    rewrite !append_assoc.
    change ("{" ++ ?t) with (String "{" t).
    rewrite parse_open_object.
    rewrite <- (append_assoc nl g), (skip_ws_blank _ _ (blank_nl_ind _ Hg)).
    assert (Et : exists t,
      String.concat ("," ++ nl ++ g)
        (map (fun kv => quote (fst kv) ++ ": " ++ serialize g (snd kv)) (kv :: r))
      ++ nl ++ ind ++ "}" ++ rest = String "034" t).
    { cbn [map]. destruct r; cbn [map String.concat]; unfold quote;
        eexists; reflexivity. }
    destruct Et as (t & Et).
    pose proof (members_read_back ind g rest (kv :: r) Hall
                  ltac:(discriminate) Hi Hg fuel
                  ltac:(simpl in Hfuel |- *; lia)) as Hp.
    rewrite Et in *. rewrite (skip_ws_stop "034" t eq_refl).
    change (Ascii.eqb "034" "}") with false. cbv iota.
    rewrite Hp. now rewrite (build_object_distinct _ Hnd).
Qed.

(** *** Enough fuel *)

Lemma concat_length_bound {A} (f : A -> string) (w : A -> nat) (sep : string)
  (l : list A) :
  Forall (fun x => w x <= String.length (f x)) l ->
  1 <= String.length sep ->
  list_sum (map (fun x => S (w x)) l) <= S (String.length (String.concat sep (map f l))).
Proof.
  intros Hall Hsep. induction Hall as [|x r Hx Hr IH]; [simpl; lia|].
  change (list_sum (map (fun x => S (w x)) (x :: r)))
    with (S (w x) + list_sum (map (fun x => S (w x)) r)).
  destruct r as [|y r].
  - simpl. lia.
  - change (String.concat sep (map f (x :: y :: r)))
      with (f x ++ sep ++ String.concat sep (map f (y :: r))).
    rewrite !length_append. lia.
Qed.

Lemma weight_le_length (v : json) :
  forall ind, weight v <= String.length (serialize ind v).
Proof.
  induction v as [| b | n | s | items IH | props IH] using json_ind; intros ind.
  - simpl. lia.
  - destruct b; simpl; lia.
  - cbn [serialize weight]. destruct (num_is_finite n) eqn:Ef; [|simpl; lia].
    destruct (num_to_string_head n Ef) as (c & s & E & _).
    rewrite E. simpl. lia.
  - cbn [serialize weight]. unfold quote. rewrite !length_append. simpl. lia.
  - destruct items as [|x r]; [simpl; lia|].
    change (serialize ind (JArr (x :: r)))
      with ("[" ++ nl ++ (ind ++ gap)
            ++ String.concat ("," ++ nl ++ (ind ++ gap))
                 (map (fun x => serialize (ind ++ gap) x) (x :: r))
            ++ nl ++ ind ++ "]").
    cbn [weight].
    assert (Hb := concat_length_bound (fun x => serialize (ind ++ gap) x) weight
                    ("," ++ nl ++ (ind ++ gap)) (x :: r)).
    rewrite !length_append. simpl String.length at 1 2.
    specialize (Hb ltac:(eapply Forall_impl; [|exact IH]; intros a Ha; apply Ha)
                   ltac:(simpl; lia)).
    lia.
  - destruct props as [|kv r]; [simpl; lia|].
    change (serialize ind (JObj (kv :: r)))
      with ("{" ++ nl ++ (ind ++ gap)
            ++ String.concat ("," ++ nl ++ (ind ++ gap))
                 (map (fun kv => quote (fst kv) ++ ": "
                                 ++ serialize (ind ++ gap) (snd kv)) (kv :: r))
            ++ nl ++ ind ++ "}").
    cbn [weight].
    assert (Hb := concat_length_bound
                    (fun kv => quote (fst kv) ++ ": "
                               ++ serialize (ind ++ gap) (snd kv))
                    (fun kv => weight (snd kv))
                    ("," ++ nl ++ (ind ++ gap)) (kv :: r)).
    rewrite !length_append. simpl String.length at 1 2.
    specialize (Hb ltac:(eapply Forall_impl; [|exact IH]; intros a Ha;
                         rewrite !length_append;
                         specialize (Ha (ind ++ gap)); simpl in *; lia)
                   ltac:(simpl; lia)).
    lia.
Qed.

(** What [JSON.stringify] writes for a value is read back as that value. *)
Lemma parse_stringify (v : json) :
  distinct_keys v -> plain_numbers v -> JSON_parse (JSON_stringify v) = Some v.
Proof.
  intros Hd Hp. unfold JSON_parse, JSON_stringify.
  pose proof (serialize_reads_back v Hd Hp "" ""
                (S (String.length (serialize "" v))) eq_refl eq_refl) as H.
  rewrite append_nil_r in H. rewrite H; [reflexivity|].
  pose proof (weight_le_length v ""). lia.
Qed.

End Roundtrip.

(** ** The JSON output *)

Section JsonOutput.

Context {num : Type} {NumOps : JSNumber num} {HostOps : Host}.
Variable transport : http_request (num:=num) -> option (http_response num).

#[local] Abbreviation json := (json num).

Lemma resolved_outcome props req r :
  fst (invoke transport (search_request props)) = [req] ->
  transport req = Some r ->
  validateStatus (status r) = true ->
  snd (invoke transport (search_request props))
  = match render (args_of props) (data r) with
    | inl e => on_error e
    | inr x => inr x
    end.
Proof.
  intros Hc Ht Hs.
  destruct (invoke_cases transport (search_request props))
    as [H|(a & u & p & _ & Ha & H)].
  - rewrite H in Hc. discriminate.
  - change (inr (args_of props) = inr a :> R num tool_args) in Ha.
    injection Ha as <-.
    rewrite H in *. rewrite settle_eq in *. simpl in Hc. injection Hc as <-.
    simpl. now rewrite Ht, Hs.
Qed.

(** C7.  With a format other than ["text"] (["json"], or none given), when
    the one request is answered with a 2xx status the result holds one text
    item, whose text is [JSON.stringify] of the upstream body, whatever the
    kind and the other arguments.  When every number of the body is finite
    and none is negative zero, reading that text back gives the upstream
    body itself: no field is added, removed or changed.  A number that is
    not finite is written as [null], and is read back as [null]: a body
    that is such a number does not come back. *)
Theorem json_output_round_trips
  (props : list (string * json)) (req : http_request) (r : http_response num) :
  is_str "text" (arg_format (args_of props)) = false ->
  fst (invoke transport (search_request props)) = [req] ->
  transport req = Some r ->
  validateStatus (status r) = true ->
  exists text,
    snd (invoke transport (search_request props))
    = inr {| content := [ {| content_type := "text"; text := text |} ] |}
    /\ text = JSON_stringify (data r)
    /\ (distinct_keys (data r) -> plain_numbers (data r) ->
        JSON_parse text = Some (data r))
    /\ (forall n, data r = JNum n -> num_is_finite n = false ->
        text = "null" /\ JSON_parse text = Some JNull).
Proof.
  intros Hf Hc Ht Hs. exists (JSON_stringify (data r)).
  rewrite (resolved_outcome props req r Hc Ht Hs).
  unfold render. rewrite Hf. simpl.
  split; [reflexivity|]. split; [reflexivity|]. split.
  - intros Hd Hp. now apply parse_stringify.
  - intros n -> Hn. unfold JSON_stringify. cbn [serialize]. rewrite Hn.
    split; reflexivity.
Qed.

End JsonOutput.

(** * Further properties *)

(** ** Every invocation *)

Section Invocations.

Context {num : Type} {NumOps : JSNumber num} {HostOps : Host}.
Variable transport : http_request (num:=num) -> option (http_response num).

#[local] Abbreviation json := (json num).
#[local] Abbreviation jsval := (jsval num).

(** The [catch] clause always throws, and what it throws is an [McpError]
    with the code [InternalError], or the error of a string conversion. *)
Lemma on_error_throws (error : js_error num) :
  exists e, on_error error = inl e
    /\ ((exists text, e = McpError InternalError text)
        \/ e = TypeError CannotConvertToPrimitive).
Proof.
  destruct error as [r | | c m | t];
    try (eexists; split; [reflexivity | left; eexists; reflexivity]).
  unfold on_error. rewrite read_body_message. simpl bind.
  destruct (to_string_val _) as [e|s] eqn:E; simpl.
  - exists e. split; [reflexivity|]. right. now apply to_string_val_error in E.
  - eexists; split; [reflexivity | left; eexists; reflexivity].
Qed.

(** The router sends nothing and the [catch] clause takes over, or it
    settles on one request to a known endpoint. *)
Lemma route_outcomes (a : tool_args) :
  (exists e, after a (route transport a) = ([], on_error e))
  \/ exists u p, after a (route transport a) = settle transport a u p
                 /\ known_endpoint {| url := u; params := p |}.
Proof.
  assert (Hsearch : forall u ps,
    In u collection_paths ->
    (exists e, settle transport a u (Some ps) = ([], on_error e))
    \/ exists u0 p0, settle transport a u (Some ps) = settle transport a u0 p0
                     /\ known_endpoint {| url := u0; params := p0 |}).
  { intros u ps Hu. right. exists u, (Some ps). split; [reflexivity | exact Hu]. }
  assert (Hid : forall id collection,
    In collection collection_paths ->
    let m := ebind (lift (to_string_val id))
                   (fun s => axios_get transport ((collection ++ "/") ++ s) None) in
    (exists e, after a m = ([], on_error e))
    \/ exists u0 p0, after a m = settle transport a u0 p0
                     /\ known_endpoint {| url := u0; params := p0 |}).
  { intros id collection Hc m. unfold m. rewrite after_bind_id.
    destruct (to_string_val id) as [e|s]; [left; now exists e|].
    right. exists ((collection ++ "/") ++ s), None. split; [reflexivity|].
    exists collection, s. split; [exact Hc | apply append_assoc]. }
  unfold route.
  destruct (is_str "event" (arg_type a)).
  { destruct (truthy (arg_eventId a));
      [apply (Hid _ "/events") | apply Hsearch]; simpl; auto. }
  destruct (is_str "venue" (arg_type a)).
  { destruct (truthy (arg_venueId a) && negb (truthy (arg_keyword a)));
      [apply (Hid _ "/venues") | apply Hsearch]; simpl; auto. }
  destruct (is_str "attraction" (arg_type a)).
  { destruct (truthy (arg_attractionId a) && negb (truthy (arg_keyword a)));
      [apply (Hid _ "/attractions") | apply Hsearch]; simpl; auto. }
  left. rewrite after_bind_id.
  destruct (to_string_val (arg_type a)) as [e|s]; eexists; reflexivity.
Qed.

Lemma invoke_outcomes (request : tool_request) :
  (exists e, invoke transport request = ([], on_error e))
  \/ exists a u p,
       name request = "search_tm_partner"
       /\ destructure (arguments request) = inr a
       /\ invoke transport request = settle transport a u p
       /\ known_endpoint {| url := u; params := p |}.
Proof.
  destruct (String.eqb_spec (name request) "search_tm_partner") as [En|En].
  2:{ left. unfold invoke, handle_call.
      apply String.eqb_neq in En. rewrite En. eexists. reflexivity. }
  destruct (destructure (arguments request)) as [e|a] eqn:Ed.
  { left. exists e. unfold invoke, handle_call, search_tm_partner.
    rewrite En. simpl String.eqb. cbv iota.
    unfold try_catch, ebind, lift. now rewrite Ed. }
  rewrite (invoke_after transport request a En Ed).
  destruct (route_outcomes a) as [H|(u & p & H & Hk)]; [now left|].
  right. exists a, u, p. repeat split; assumption.
Qed.

(** X1.  An invocation sends no request or exactly one, and that one goes
    to one of the six endpoints of the client class: a search on
    [/events], [/venues] or [/attractions], with parameters, or a fetch of
    one entity under one of them, without parameters. *)
Theorem at_most_one_known_request (request : tool_request) :
  fst (invoke transport request) = []
  \/ exists req, fst (invoke transport request) = [req] /\ known_endpoint req.
Proof.
  destruct (invoke_outcomes request) as [(e & H)|(a & u & p & _ & _ & H & Hk)];
    rewrite H.
  - now left.
  - right. rewrite settle_calls. eexists. split; [reflexivity | exact Hk].
Qed.

Lemma settle_failure a u p e :
  snd (settle transport a u p) = inl e ->
  exists error, on_error error = inl e.
Proof.
  rewrite settle_eq. cbn [snd].
  destruct (transport _) as [r|]; [|intros H; eexists; exact H].
  destruct (validateStatus _); [|intros H; eexists; exact H].
  destruct (render a (data r)); [intros H; eexists; exact H | discriminate].
Qed.

(** X2.  Whatever fails (the arguments, the kind, the tool name, the
    upstream call, the text projection), the error that leaves the handler
    is an [McpError] with the code [InternalError]; the one exception is the
    TypeError of a string conversion inside the [catch] clause itself. *)
Theorem failures_leave_as_internal_errors
  (request : tool_request) (e : js_error num) :
  snd (invoke transport request) = inl e ->
  (exists text, e = McpError InternalError text)
  \/ e = TypeError CannotConvertToPrimitive.
Proof.
  intros H.
  assert (He : exists error, on_error error = inl e).
  { destruct (invoke_outcomes request) as [(e0 & H0)|(a & u & p & _ & _ & H0 & _)];
      rewrite H0 in H.
    - now exists e0.
    - now apply settle_failure in H. }
  destruct He as (error & He).
  destruct (on_error_throws error) as (e' & He' & Hkind).
  rewrite He in He'. now injection He' as <-.
Qed.

Lemma text_result_inj (s t : string) : text_result s = text_result t -> s = t.
Proof. now intros [= ->]. Qed.

Lemma render_gives_text (a : tool_args) (results : json) (result : tool_result) :
  render a results = inr result ->
  exists t, result = text_result t /\ t <> "".
Proof.
  unfold render. destruct (is_str "text" (arg_format a)).
  - destruct (text_output (arg_type a) results) as [e|t]; simpl; [discriminate|].
    intros [= <-]. eexists. split; [reflexivity|].
    destruct (String.eqb_spec t ""); [discriminate | assumption].
  - intros [= <-]. eexists. split; [reflexivity|].
    unfold JSON_stringify.
    destruct (serialize_head "" results) as (c & s & -> & _). discriminate.
Qed.

(** X3.  A result, when the handler returns one, holds exactly one content
    item, of type [text], and its text is never empty: in text mode the
    sentinel stands in for an empty output, and JSON text is never empty. *)
Theorem results_hold_one_nonempty_text
  (request : tool_request) (result : tool_result) :
  snd (invoke transport request) = inr result ->
  exists t,
    content result = [ {| content_type := "text"; text := t |} ] /\ t <> "".
Proof.
  intros H.
  destruct (invoke_outcomes request) as [(e0 & H0)|(a & u & p & _ & _ & H0 & _)];
    rewrite H0 in H.
  - destruct (on_error_throws e0) as (e' & He' & _). cbn [snd] in H.
    rewrite He' in H. discriminate.
  - rewrite settle_eq in H. cbn [snd] in H.
    assert (Hthrow : forall error, on_error error <> inr result).
    { intros error Hr. destruct (on_error_throws error) as (e' & He' & _).
      rewrite He' in Hr. discriminate. }
    destruct (transport _) as [r|]; [|now apply Hthrow in H].
    destruct (validateStatus _); [|now apply Hthrow in H].
    destruct (render a (data r)) as [e|res] eqn:Er; [now apply Hthrow in H|].
    injection H as <-.
    destruct (render_gives_text a (data r) res Er) as (t & -> & Ht).
    exists t. split; [reflexivity | exact Ht].
Qed.

(** X4.  A call of any other tool sends nothing; the [McpError] built with
    [MethodNotFound] is thrown inside the [try], so what leaves the handler
    has the code [InternalError], its text wrapping the message of the
    first. *)
Theorem unknown_tool_leaves_as_internal_error (request : tool_request) :
  name request <> "search_tm_partner" ->
  invoke transport request
  = ([], inl (McpError InternalError
                ("Error: "
                 ++ mcp_message MethodNotFound
                      ("Unknown tool: " ++ name request)))).
Proof.
  intros Hn. unfold invoke, handle_call.
  apply String.eqb_neq in Hn. now rewrite Hn.
Qed.

(** X5.  When the one request of an invocation gets no answer, the
    invocation throws the [McpError] with the fixed text
    [No response from Ticketmaster Partner API], whatever the arguments. *)
Theorem no_response_is_reported
  (request : tool_request) (req : http_request) :
  fst (invoke transport request) = [req] ->
  transport req = None ->
  snd (invoke transport request)
  = inl (McpError InternalError "No response from Ticketmaster Partner API").
Proof.
  intros Hc Ht.
  destruct (invoke_outcomes request) as [(e0 & H0)|(a & u & p & _ & _ & H0 & _)];
    rewrite H0 in *.
  - discriminate.
  - rewrite settle_eq in *. simpl in Hc. injection Hc as <-.
    simpl. now rewrite Ht.
Qed.

(** X6.  A call of the tool without arguments ([undefined] or [null])
    fails in the destructuring: nothing is sent, and the error that leaves
    the handler wraps the engine's message. *)
Theorem missing_arguments_fail_before_any_request (request : tool_request) :
  name request = "search_tm_partner" ->
  missing (arguments request) = true ->
  invoke transport request
  = ([], inl (McpError InternalError
                ("Error: "
                 ++ engine_message
                      (CannotDestructure (supplied (arguments request)))))).
Proof.
  intros Hn Hm. unfold invoke, handle_call, search_tm_partner.
  rewrite Hn. simpl String.eqb. cbv iota.
  destruct (arguments request) as [[]|]; try discriminate; reflexivity.
Qed.

End Invocations.

(** ** The arguments that matter *)

Section Arguments.

Context {num : Type} {NumOps : JSNumber num} {HostOps : Host}.
Variable transport : http_request (num:=num) -> option (http_response num).

#[local] Abbreviation json := (json num).
#[local] Abbreviation jsval := (jsval num).

Lemma after_ext (a a' : tool_args) (m : Eff json) :
  arg_type a = arg_type a' -> arg_format a = arg_format a' ->
  after a m = after a' m.
Proof.
  intros Ht Hf. unfold after, try_catch, ebind, lift.
  destruct (m []) as [log [e|results]]; [reflexivity|].
  now rewrite (render_ext a a' results Ht Hf).
Qed.

Lemma settle_same (a a' : tool_args) u p :
  arg_type a = arg_type a' -> arg_format a = arg_format a' ->
  settle transport a u p = settle transport a' u p.
Proof. intros Ht Hf. unfold settle. now apply after_ext. Qed.

Lemma declared_names :
  map fst (declared_properties (num:=num))
  = [ "type"; "keyword"; "eventId"; "venueId"; "attractionId";
      "startDateTime"; "endDateTime"; "city"; "stateCode"; "countryCode";
      "postalCode"; "latlong"; "radius"; "unit"; "classificationName";
      "size"; "page"; "sort"; "format" ].
Proof. reflexivity. Qed.

#[local] Ltac same_lookups H :=
  repeat match goal with
  | |- context [lookup ?k ?p] =>
      rewrite (H k) by (simpl; intuition discriminate)
  end.

(** X7.  The invocation depends on the declared properties of the input
    schema only: two argument objects that agree on the nineteen properties
    the tool listing declares send the same requests and have the same
    outcome, whatever else they hold. *)
Theorem undeclared_arguments_are_ignored (props1 props2 : list (string * json)) :
  (forall k, In k (map fst (declared_properties (num:=num))) ->
             lookup k props1 = lookup k props2) ->
  invoke transport (search_request props1)
  = invoke transport (search_request props2).
Proof.
  intros Hsame. rewrite declared_names in Hsame.
  rewrite !invoke_search_request.
  assert (Ha : args_of props1 = args_of props2).
  { unfold args_of.
    repeat match goal with
    | |- context [lookup ?k props1] =>
        rewrite (Hsame k) by (simpl; tauto)
    end.
    reflexivity. }
  now rewrite Ha.
Qed.

Lemma declared_default_cases (k : string) (d : json) :
  declared_default k = Some d ->
  (k = "size" /\ d = JNum (num_of_Z 20))
  \/ (k = "page" /\ d = JNum (num_of_Z 0))
  \/ (k = "format" /\ d = JStr "json").
Proof.
  unfold declared_default.
  change (at_path [k; "default"] (Some (JObj declared_properties)))
    with (match lookup k (declared_properties (num:=num)) with
          | Some (JObj p) => lookup "default" p
          | _ => None
          end).
  let ps := eval cbv -[num_of_Z] in (declared_properties (num:=num)) in
  change (declared_properties (num:=num)) with ps.
  cbn [lookup].
  repeat match goal with
  | |- context [String.eqb k ?s] =>
      destruct (String.eqb_spec k s) as [->|_];
      [ cbn; try discriminate; intros [= <-]; auto 6 | ]
  end.
  discriminate.
Qed.

(** X8.  The defaults the tool listing declares are the defaults the
    handler applies: leaving out [size], [page] or [format] gives the same
    requests and the same outcome as passing the declared default. *)
Theorem declared_defaults_are_applied
  (k : string) (d : json) (props props' : list (string * json)) :
  declared_default k = Some d ->
  lookup k props = None ->
  lookup k props' = Some d ->
  (forall k', k' <> k -> lookup k' props' = lookup k' props) ->
  invoke transport (search_request props)
  = invoke transport (search_request props').
Proof.
  intros Hd Hnone Hsome Hsame. rewrite !invoke_search_request.
  assert (Ha : args_of props' = args_of props).
  { destruct (declared_default_cases k d Hd) as [[-> ->]|[[-> ->]|[-> ->]]];
      unfold args_of; rewrite Hnone, Hsome;
      repeat match goal with
      | |- context [lookup ?k' props'] =>
          rewrite (Hsame k') by discriminate
      end;
      reflexivity. }
  now rewrite Ha.
Qed.

Lemma conforms_declared (props : list (string * json)) (k : string) (d : json) :
  conforms props = true ->
  In (k, d) declared_properties ->
  match lookup k props with
  | Some v => conforms_to d v = true
  | None => True
  end.
Proof.
  unfold conforms. intros [_ H]%andb_prop Hin.
  rewrite forallb_forall in H. specialize (H (k, d) Hin). simpl in H.
  now destruct (lookup k props).
Qed.

Lemma conforms_string (props : list (string * json)) (k description : string) :
  conforms props = true ->
  In (k, JObj [("type", JStr "string"); ("description", JStr description)])
     (declared_properties (num:=num)) ->
  lookup k props = None \/ exists s, lookup k props = Some (JStr s).
Proof.
  intros Hc Hin. pose proof (conforms_declared props k _ Hc Hin) as H.
  destruct (lookup k props) as [v|]; [|now left]. right.
  destruct v; try discriminate H. now eexists.
Qed.

Lemma conforms_kind (props : list (string * json)) :
  conforms props = true ->
  lookup "type" props = Some (JStr "event")
  \/ lookup "type" props = Some (JStr "venue")
  \/ lookup "type" props = Some (JStr "attraction").
Proof.
  intros Hc.
  assert (Hreq : has_key "type" props = true).
  { unfold conforms in Hc. apply andb_prop in Hc as [Hr _].
    change (required_properties (num:=num)) with ["type"] in Hr.
    simpl in Hr. now apply andb_prop in Hr as [Hr _]. }
  assert (Hin : In ("type",
                    JObj [ ("type", JStr "string");
                           ("enum", JArr [JStr "event"; JStr "venue"; JStr "attraction"]);
                           ("description", JStr "Type of search to perform") ])
                   (declared_properties (num:=num))) by (left; reflexivity).
  pose proof (conforms_declared props "type" _ Hc Hin) as H.
  unfold has_key in Hreq.
  destruct (lookup "type" props) as [v|]; [|discriminate].
  destruct v as [| | |s| |]; try discriminate H.
  change (true
          && (("event" =? s) || (("venue" =? s) || (("attraction" =? s) || false)))
          && true = true) in H.
  destruct (String.eqb_spec "event" s) as [<-|_]; [now left|].
  destruct (String.eqb_spec "venue" s) as [<-|_]; [right; now left|].
  destruct (String.eqb_spec "attraction" s) as [<-|_]; [right; now right|].
  discriminate H.
Qed.

Lemma string_or_absent_converts (v : jsval) :
  v = None \/ (exists s, v = Some (JStr s)) ->
  exists s, to_string_val v = inr s.
Proof. intros [->|(s & ->)]; eexists; reflexivity. Qed.

Lemma settled_once (a : tool_args) u p :
  In u collection_paths ->
  exists req, fst (settle transport a u (Some p)) = [req] /\ known_endpoint req.
Proof.
  intros Hu. rewrite settle_calls. eexists. split; [reflexivity | exact Hu].
Qed.

Lemma fetched_once (a : tool_args) (collection : string) (id : jsval) :
  In collection collection_paths ->
  (exists s, to_string_val id = inr s) ->
  exists req,
    fst (after a (ebind (lift (to_string_val id))
                        (fun s => axios_get transport ((collection ++ "/") ++ s) None)))
    = [req]
    /\ known_endpoint req.
Proof.
  intros Hc (s & Hs). rewrite after_bind_id, Hs.
  change (after a (axios_get transport ((collection ++ "/") ++ s) None))
    with (settle transport a ((collection ++ "/") ++ s) None).
  rewrite settle_calls. eexists. split; [reflexivity|].
  exists collection, s. split; [exact Hc | apply append_assoc].
Qed.

(** X9.  An argument object that conforms to the input schema of the tool
    listing (the required [type], each declared property of its declared
    type, each enumerated one among its values) is always routed to the
    client: the handler makes exactly one call of [axiosInstance.get], to a
    known endpoint.  (What axios does with the call is not part of the
    statement.) *)
Theorem conforming_call_makes_one_client_call (props : list (string * json)) :
  conforms props = true ->
  exists req,
    fst (invoke transport (search_request props)) = [req]
    /\ known_endpoint req.
Proof.
  intros Hc.
  assert (Hevent := string_or_absent_converts _
    (conforms_string props "eventId" _ Hc
       ltac:(right; right; left; reflexivity))).
  assert (Hvenue := string_or_absent_converts _
    (conforms_string props "venueId" _ Hc
       ltac:(right; right; right; left; reflexivity))).
  assert (Hattraction := string_or_absent_converts _
    (conforms_string props "attractionId" _ Hc
       ltac:(right; right; right; right; left; reflexivity))).
  destruct (conforms_kind props Hc) as [Ht|[Ht|Ht]].
  - rewrite (invoke_event transport props Ht).
    destruct (truthy (lookup "eventId" props)).
    + apply (fetched_once _ "/events"); [simpl; auto | exact Hevent].
    + apply settled_once. simpl; auto.
  - rewrite (invoke_venue transport props Ht).
    destruct (truthy (lookup "venueId" props)
              && negb (truthy (lookup "keyword" props))).
    + apply (fetched_once _ "/venues"); [simpl; auto | exact Hvenue].
    + apply settled_once. simpl; auto.
  - rewrite (invoke_attraction transport props Ht).
    destruct (truthy (lookup "attractionId" props)
              && negb (truthy (lookup "keyword" props))).
    + apply (fetched_once _ "/attractions"); [simpl; auto | exact Hattraction].
    + apply settled_once. simpl; auto.
Qed.

(** X10.  A fetch by identifier reads nothing but the kind, the
    identifier and the format ([keyword] too for a venue or an attraction,
    where it decides between the fetch and the search): two argument
    objects that agree on these and lead to a fetch send the same request
    and have the same outcome, so every filter given with an identifier is
    dropped without notice. *)
Theorem fetch_ignores_every_filter (props1 props2 : list (string * json)) :
  (lookup "type" props1 = Some (JStr "event") ->
   truthy (lookup "eventId" props1) = true ->
   (forall k, In k event_fetch_fields -> lookup k props1 = lookup k props2) ->
   invoke transport (search_request props1)
   = invoke transport (search_request props2))
  /\
  (lookup "type" props1 = Some (JStr "venue") ->
   truthy (lookup "venueId" props1) = true ->
   truthy (lookup "keyword" props1) = false ->
   (forall k, In k (fetch_fields "venueId") -> lookup k props1 = lookup k props2) ->
   invoke transport (search_request props1)
   = invoke transport (search_request props2))
  /\
  (lookup "type" props1 = Some (JStr "attraction") ->
   truthy (lookup "attractionId" props1) = true ->
   truthy (lookup "keyword" props1) = false ->
   (forall k, In k (fetch_fields "attractionId") ->
              lookup k props1 = lookup k props2) ->
   invoke transport (search_request props1)
   = invoke transport (search_request props2)).
Proof.
  split; [|split].
  - intros Ht Hid Hsame.
    assert (Ht2 : lookup "type" props2 = Some (JStr "event"))
      by (rewrite <- (Hsame "type") by (simpl; auto); exact Ht).
    rewrite (invoke_event transport props1 Ht), (invoke_event transport props2 Ht2).
    rewrite <- (Hsame "eventId") by (simpl; auto). rewrite Hid.
    apply after_ext; simpl;
      [ now rewrite (Hsame "type") by (simpl; auto)
      | now rewrite (Hsame "format") by (simpl; auto) ].
  - intros Ht Hid Hk Hsame.
    assert (Ht2 : lookup "type" props2 = Some (JStr "venue"))
      by (rewrite <- (Hsame "type") by (simpl; auto); exact Ht).
    rewrite (invoke_venue transport props1 Ht), (invoke_venue transport props2 Ht2).
    rewrite <- (Hsame "venueId") by (simpl; auto).
    rewrite <- (Hsame "keyword") by (simpl; auto). rewrite Hid, Hk.
    apply after_ext; simpl;
      [ now rewrite (Hsame "type") by (simpl; auto)
      | now rewrite (Hsame "format") by (simpl; auto) ].
  - intros Ht Hid Hk Hsame.
    assert (Ht2 : lookup "type" props2 = Some (JStr "attraction"))
      by (rewrite <- (Hsame "type") by (simpl; auto); exact Ht).
    rewrite (invoke_attraction transport props1 Ht),
            (invoke_attraction transport props2 Ht2).
    rewrite <- (Hsame "attractionId") by (simpl; auto).
    rewrite <- (Hsame "keyword") by (simpl; auto). rewrite Hid, Hk.
    apply after_ext; simpl;
      [ now rewrite (Hsame "type") by (simpl; auto)
      | now rewrite (Hsame "format") by (simpl; auto) ].
Qed.

(** X11.  A venue request never reads [eventId], [attractionId],
    [startDateTime], [endDateTime] or [classificationName]: two venue
    requests that differ in these only send the same request and have the
    same outcome. *)
Theorem venue_requests_ignore_dates_and_classes
  (props1 props2 : list (string * json)) :
  lookup "type" props1 = Some (JStr "venue") ->
  (forall k, ~ In k venue_unused -> lookup k props1 = lookup k props2) ->
  invoke transport (search_request props1)
  = invoke transport (search_request props2).
Proof.
  intros Ht Hsame.
  assert (Ht2 : lookup "type" props2 = Some (JStr "venue"))
    by (rewrite <- (Hsame "type") by (simpl; intuition discriminate); exact Ht).
  rewrite (invoke_venue transport props1 Ht), (invoke_venue transport props2 Ht2).
  rewrite <- (Hsame "venueId") by (simpl; intuition discriminate).
  rewrite <- (Hsame "keyword") by (simpl; intuition discriminate).
  assert (Hp : venue_search_params (args_of props1)
               = venue_search_params (args_of props2)).
  { unfold venue_search_params, args_of. simpl. same_lookups Hsame. reflexivity. }
  rewrite Hp.
  destruct (truthy _ && negb _);
    [apply after_ext | apply settle_same]; simpl;
    same_lookups Hsame; reflexivity.
Qed.

(** X12.  An attraction request never reads [eventId], [venueId], the
    date range or any of the location filters ([city], [stateCode],
    [countryCode], [postalCode], [latlong], [radius], [unit]): two
    attraction requests that differ in these only send the same request and
    have the same outcome. *)
Theorem attraction_requests_ignore_dates_and_places
  (props1 props2 : list (string * json)) :
  lookup "type" props1 = Some (JStr "attraction") ->
  (forall k, ~ In k attraction_unused -> lookup k props1 = lookup k props2) ->
  invoke transport (search_request props1)
  = invoke transport (search_request props2).
Proof.
  intros Ht Hsame.
  assert (Ht2 : lookup "type" props2 = Some (JStr "attraction"))
    by (rewrite <- (Hsame "type") by (simpl; intuition discriminate); exact Ht).
  rewrite (invoke_attraction transport props1 Ht),
          (invoke_attraction transport props2 Ht2).
  rewrite <- (Hsame "attractionId") by (simpl; intuition discriminate).
  rewrite <- (Hsame "keyword") by (simpl; intuition discriminate).
  assert (Hp : attraction_search_params (args_of props1)
               = attraction_search_params (args_of props2)).
  { unfold attraction_search_params, args_of. simpl.
    same_lookups Hsame. reflexivity. }
  rewrite Hp.
  destruct (truthy _ && negb _);
    [apply after_ext | apply settle_same]; simpl;
    same_lookups Hsame; reflexivity.
Qed.

End Arguments.

(** ** JSON text *)

Section JsonText.

Context {num : Type} {NumOps : JSNumber num} {HostOps : Host}.

#[local] Abbreviation json := (json num).

(** X13.  In a format other than ["text"] the handler returns different
    results for different bodies, as long as every number in them is finite
    and none is negative zero; a number that is not finite is returned as
    [null] is. *)
Theorem distinct_bodies_have_distinct_json_results
  (a : tool_args) (body1 body2 : json) :
  is_str "text" (arg_format a) = false ->
  (distinct_keys body1 -> plain_numbers body1 ->
   distinct_keys body2 -> plain_numbers body2 ->
   body1 <> body2 -> render a body1 <> render a body2)
  /\
  (forall n, num_is_finite n = false -> render a (JNum n) = render a JNull).
Proof.
  intros Hf. unfold render. rewrite Hf. split.
  - intros Hd1 Hp1 Hd2 Hp2 Hne E. apply Hne.
    assert (Et : JSON_stringify body1 = JSON_stringify body2)
      by (injection E as E; exact E).
    pose proof (parse_stringify body1 Hd1 Hp1) as P1.
    rewrite Et, (parse_stringify body2 Hd2 Hp2) in P1. now injection P1.
  - intros n Hn. unfold JSON_stringify. cbn [serialize]. now rewrite Hn.
Qed.

End JsonText.

(** ** The projections on values of the declared interfaces *)

Section Shapes.

Context {num : Type} {NumOps : JSNumber num} {HostOps : Host}.

#[local] Abbreviation json := (json num).
#[local] Abbreviation jsval := (jsval num).

Lemma is_string_cases (v : jsval) :
  is_string v = true -> exists s, v = Some (JStr s).
Proof. destruct v as [[]|]; try discriminate. intros _. now eexists. Qed.

Lemma is_number_cases (v : jsval) :
  is_number v = true -> exists n, v = Some (JNum n).
Proof. destruct v as [[]|]; try discriminate. intros _. now eexists. Qed.

Lemma is_boolean_cases (v : jsval) :
  is_boolean v = true -> exists b, v = Some (JBool b).
Proof. destruct v as [[]|]; try discriminate. intros _. now eexists. Qed.

Lemma is_object_cases (check : list (string * json) -> bool) (v : jsval) :
  is_object check v = true ->
  exists fields, v = Some (JObj fields) /\ check fields = true.
Proof. destruct v as [[]|]; try discriminate. intros H. now eexists. Qed.

Lemma is_array_cases (check : jsval -> bool) (v : jsval) :
  is_array check v = true ->
  exists items, v = Some (JArr items)
                /\ Forall (fun x => check (Some x) = true) items.
Proof.
  destruct v as [[| | | |items|]|]; try discriminate. simpl. intros H.
  exists items. split; [reflexivity|].
  apply Forall_forall. now apply forallb_forall.
Qed.

Lemma optional_cases (check : jsval -> bool) (v : jsval) :
  optional check v = true -> v = None \/ check v = true.
Proof. destruct v; simpl; auto. Qed.

Lemma optional_string (v : jsval) :
  optional is_string v = true -> string_or_absent v.
Proof.
  intros [->|H]%optional_cases; [now left|].
  right. now apply is_string_cases.
Qed.

Lemma optional_names (k : string) (check : list (string * json) -> bool)
  (v : jsval) :
  (forall fields, check fields = true -> is_string (lookup k fields) = true) ->
  optional (is_object check) v = true -> names k v.
Proof.
  intros Hk [->|H]%optional_cases; [now left|].
  apply is_object_cases in H as (fields & -> & Hc).
  apply Hk, is_string_cases in Hc as (s & Hs).
  right. now exists fields, s.
Qed.

(** *** Computations that return *)

Lemma succeeds_ret {A} (x : A) : succeeds (ret x : R num A).
Proof. now exists x. Qed.

Lemma succeeds_bind {A B} (m : R num A) (k : A -> R num B) :
  succeeds m -> (forall x, m = inr x -> succeeds (k x)) -> succeeds (bind m k).
Proof. intros (x & Hx) Hk. rewrite Hx. simpl. now apply Hk. Qed.

Lemma succeeds_push_if (cond : bool) (lines : list string) (l : R num string) :
  (cond = true -> succeeds l) -> succeeds (push_if cond lines l).
Proof.
  intros H. unfold push_if. destruct cond; [|apply succeeds_ret].
  destruct (H eq_refl) as (x & ->). apply succeeds_ret.
Qed.

Lemma succeeds_mapM {A B} (f : A -> R num B) (l : list A) :
  Forall (fun x => succeeds (f x)) l -> succeeds (mapM f l).
Proof.
  induction 1 as [|x r Hx _ IH]; simpl; [apply succeeds_ret|].
  destruct Hx as (y & ->). destruct IH as (ys & ->). apply succeeds_ret.
Qed.

Lemma read_field (fields : list (string * json)) (k : string) (x : jsval) :
  get (Some (JObj fields)) k = inr x -> x = lookup k fields.
Proof. now intros [= <-]. Qed.

Lemma succeeds_read (fields : list (string * json)) (k : string) :
  succeeds (get (Some (JObj fields)) k).
Proof. apply succeeds_ret. Qed.

Lemma succeeds_opt_get (v : jsval) (k : string) : succeeds (opt_get v k).
Proof.
  destruct v as [[| | |s|items|fields]|]; simpl; try apply succeeds_ret.
  - destruct (String.eqb k "length"); [apply succeeds_ret|].
    destruct (Dec.index_of_key k); [|apply succeeds_ret].
    destruct (String.get n s); apply succeeds_ret.
  - destruct (String.eqb k "length"); [apply succeeds_ret|].
    destruct (Dec.index_of_key k); apply succeeds_ret.
Qed.

Lemma opt_get_names (k : string) (v x : jsval) :
  names k v -> opt_get v k = inr x -> string_or_absent x.
Proof.
  intros [->|(fields & s & -> & Hs)]; simpl; intros [= <-]; [now left|].
  right. now exists s.
Qed.

Lemma succeeds_string (v : jsval) :
  string_or_absent v -> succeeds (to_string_val v).
Proof. intros [->|(s & ->)]; apply succeeds_ret. Qed.

Lemma nonempty_array (items : list json) :
  nonempty (Some (JArr items))
  = inr (match items with [] => false | _ :: _ => true end).
Proof.
  unfold nonempty. simpl. unfold ret. f_equal. rewrite num_gt0_of_Z.
  destruct items; [reflexivity|]. simpl List.length.
  apply Z.ltb_lt. lia.
Qed.

Lemma formatVenueAsText_total (venue : jsval) :
  is_PartnerVenue venue = true -> succeeds (formatVenueAsText venue).
Proof.
  intros H. apply is_object_cases in H as (p & -> & H).
  repeat match type of H with
  | (_ && _) = true =>
      let H' := fresh "Hf" in apply andb_prop in H as [H H']
  end.
  apply is_string_cases in H as (id_s & Hid).
  assert (Hname : string_or_absent (lookup "name" p))
    by (right; now apply is_string_cases).
  assert (Hurl : string_or_absent (lookup "url" p))
    by (right; now apply is_string_cases).
  assert (Hcity : names "name" (lookup "city" p))
    by (eapply optional_names; [|eassumption]; intros fields Hc; exact Hc).
  assert (Hstate : names "stateCode" (lookup "state" p)).
  { eapply optional_names; [|eassumption].
    intros fields Hc. now apply andb_prop in Hc as [_ Hc]. }
  assert (Hcountry : names "countryCode" (lookup "country" p)).
  { eapply optional_names; [|eassumption].
    intros fields Hc. now apply andb_prop in Hc as [_ Hc]. }
  assert (Haddress : names "line1" (lookup "address" p)).
  { eapply optional_names; [|eassumption].
    intros fields Hc. now apply andb_prop in Hc as [Hc _]. }
  unfold formatVenueAsText.
  apply succeeds_bind; [apply succeeds_read|]. intros name ->%read_field.
  apply succeeds_bind; [now apply succeeds_string|]. intros name_s _.
  apply succeeds_bind; [apply succeeds_read|]. intros id ->%read_field.
  apply succeeds_bind; [rewrite Hid; apply succeeds_ret|]. intros id_s' _.
  apply succeeds_bind; [apply succeeds_read|]. intros address ->%read_field.
  apply succeeds_bind; [apply succeeds_opt_get|]. intros line1 Hline1.
  apply (opt_get_names _ _ _ Haddress) in Hline1.
  apply succeeds_bind.
  { apply succeeds_push_if. intros _.
    apply succeeds_bind; [now apply succeeds_string|]. intros; apply succeeds_ret. }
  intros lines1 _.
  apply succeeds_bind; [apply succeeds_read|]. intros city ->%read_field.
  apply succeeds_bind; [apply succeeds_opt_get|]. intros city_name Hcn.
  apply (opt_get_names _ _ _ Hcity) in Hcn.
  apply succeeds_bind.
  { apply succeeds_push_if. intros _.
    apply succeeds_bind; [apply succeeds_read|]. intros state ->%read_field.
    apply succeeds_bind; [apply succeeds_opt_get|]. intros stateCode Hsc.
    apply (opt_get_names _ _ _ Hstate) in Hsc.
    apply succeeds_bind; [apply succeeds_read|]. intros country ->%read_field.
    apply succeeds_bind; [apply succeeds_opt_get|]. intros countryCode Hcc.
    apply (opt_get_names _ _ _ Hcountry) in Hcc.
    apply succeeds_bind; [|intros; apply succeeds_ret].
    apply succeeds_mapM.
    destruct (truthy stateCode); destruct (truthy countryCode);
      unfold push; simpl; repeat constructor; now apply succeeds_string. }
  intros lines2 _.
  apply succeeds_bind; [apply succeeds_read|]. intros url ->%read_field.
  apply succeeds_bind; [|intros; apply succeeds_ret].
  apply succeeds_push_if. intros _.
  apply succeeds_bind; [now apply succeeds_string|]. intros; apply succeeds_ret.
Qed.

(** X14.  [formatVenueAsText] never throws on a value of the interface
    [PartnerVenue]: it returns a text for every such venue. *)
Theorem venue_projection_is_total (venue : jsval) :
  is_PartnerVenue venue = true -> succeeds (formatVenueAsText venue).
Proof. apply formatVenueAsText_total. Qed.

Lemma succeeds_if {A} (cond : bool) (a b : R num A) :
  (cond = true -> succeeds a) -> (cond = false -> succeeds b) ->
  succeeds (if cond then a else b).
Proof. destruct cond; auto. Qed.

Lemma read_first (x : json) (r : list json) :
  get (Some (JArr (x :: r))) "0" = inr (Some x).
Proof. reflexivity. Qed.

Lemma or_else_string (v : jsval) (fallback : string) :
  string_or_absent v -> string_or_absent (or_else v (Some (JStr fallback))).
Proof.
  intros H. unfold or_else. destruct (truthy v); [exact H|].
  right. now eexists.
Qed.

(** The list behind a value that [nonempty] takes as non-empty, when the
    value is absent or an array. *)
Lemma nonempty_first (check : jsval -> bool) (v : jsval) :
  optional (is_array check) v = true ->
  nonempty v = inr true ->
  exists x r, v = Some (JArr (x :: r)) /\ check (Some x) = true.
Proof.
  intros [->|H]%optional_cases; [discriminate|].
  apply is_array_cases in H as (items & -> & Hall).
  rewrite nonempty_array. destruct items as [|x r]; [discriminate|].
  intros _. exists x, r. split; [reflexivity|]. now inversion Hall.
Qed.

Lemma succeeds_nonempty (check : jsval -> bool) (v : jsval) :
  optional (is_array check) v = true -> succeeds (nonempty v).
Proof.
  intros [->|H]%optional_cases; [apply succeeds_ret|].
  apply is_array_cases in H as (items & -> & _).
  rewrite nonempty_array. apply succeeds_ret.
Qed.

(** What the projections read of a venue. *)
Lemma venue_view (venue : jsval) :
  is_PartnerVenue venue = true ->
  exists p, venue = Some (JObj p)
    /\ string_or_absent (lookup "name" p)
    /\ names "name" (lookup "city" p)
    /\ names "stateCode" (lookup "state" p).
Proof.
  intros H. apply is_object_cases in H as (p & -> & H).
  repeat match type of H with
  | (_ && _) = true =>
      let H' := fresh "Hf" in apply andb_prop in H as [H H']
  end.
  exists p. split; [reflexivity|]. split; [|split].
  - right. now apply is_string_cases.
  - eapply optional_names; [|eassumption]. intros fields Hc. exact Hc.
  - eapply optional_names; [|eassumption].
    intros fields Hc. now apply andb_prop in Hc as [_ Hc].
Qed.

(** What [find] returns on a list of classifications. *)
Lemma find_primary_classification (cs : list json) :
  Forall (fun c => is_classification (Some c) = true) cs ->
  exists found,
    find_primary cs = inr found
    /\ (found = None
        \/ exists c, found = Some c /\ is_classification (Some c) = true).
Proof.
  induction 1 as [|c r Hc _ IH]; simpl.
  - exists None. split; [reflexivity | now left].
  - pose proof Hc as Hc'. cbv beta in Hc'. unfold is_classification in Hc'.
    apply is_object_cases in Hc' as (fields & [= ->] & _). simpl.
    destruct (truthy (lookup "primary" fields)).
    + eexists. split; [reflexivity|]. right. now eexists.
    + exact IH.
Qed.

Lemma formatAttractionAsText_total (attraction : jsval) :
  is_PartnerAttraction attraction = true ->
  succeeds (formatAttractionAsText attraction).
Proof.
  intros H. apply is_object_cases in H as (p & -> & H).
  repeat match type of H with
  | (_ && _) = true =>
      let H' := fresh "Hf" in apply andb_prop in H as [H H']
  end.
  apply is_string_cases in H as (id_s & Hid).
  assert (Hname : string_or_absent (lookup "name" p))
    by (right; now apply is_string_cases).
  assert (Hurl : string_or_absent (lookup "url" p))
    by (right; now apply is_string_cases).
  assert (Hcs : optional (is_array is_classification)
                  (lookup "classifications" p) = true) by assumption.
  unfold formatAttractionAsText.
  apply succeeds_bind; [apply succeeds_read|]. intros name ->%read_field.
  apply succeeds_bind; [now apply succeeds_string|]. intros name_s _.
  apply succeeds_bind; [apply succeeds_read|]. intros id ->%read_field.
  apply succeeds_bind; [rewrite Hid; apply succeeds_ret|]. intros id_s' _.
  apply succeeds_bind; [apply succeeds_read|].
  intros classifications ->%read_field.
  apply succeeds_bind; [now apply (succeeds_nonempty is_classification)|].
  intros has_classes Hhas.
  apply succeeds_bind.
  { apply succeeds_if; [|intros; apply succeeds_ret]. intros ->.
    destruct (nonempty_first _ _ Hcs Hhas) as (c0 & r & Ecs & Hc0).
    pose proof Hcs as Hall. rewrite Ecs in Hall |- *. simpl in Hall.
    apply andb_prop in Hall as [_ Hall].
    assert (Hall' : Forall (fun c => is_classification (Some c) = true) (c0 :: r)).
    { constructor; [exact Hc0|]. apply Forall_forall.
      now apply forallb_forall. }
    destruct (find_primary_classification _ Hall') as (found & Hfound & Hwhich).
    apply succeeds_bind; [now exists found|].
    intros found' Hfound'. unfold array_find_primary in Hfound'.
    assert (found' = found) by congruence. subst found'.
    apply succeeds_bind.
    { apply succeeds_if; intros _; [apply succeeds_ret|].
      rewrite read_first. apply succeeds_ret. }
    intros primary Hprimary.
    assert (Hp : is_classification primary = true).
    { destruct (truthy found) eqn:Ht.
      - injection Hprimary as <-.
        destruct Hwhich as [->|(c & -> & Hc)]; [discriminate | exact Hc].
      - rewrite read_first in Hprimary. now injection Hprimary as <-. }
    apply is_object_cases in Hp as (fields & -> & Hp).
    repeat match type of Hp with
    | (_ && _) = true =>
        let H' := fresh "Hg" in apply andb_prop in Hp as [Hp H']
    end.
    assert (Hsegment : names "name" (lookup "segment" fields)).
    { eapply optional_names; [|eassumption].
      intros fs Hc. now apply andb_prop in Hc as [_ Hc]. }
    assert (Hgenre : names "name" (lookup "genre" fields)).
    { eapply optional_names; [|eassumption].
      intros fs Hc. now apply andb_prop in Hc as [_ Hc]. }
    apply succeeds_bind; [apply succeeds_read|]. intros segment ->%read_field.
    apply succeeds_bind; [apply succeeds_opt_get|]. intros segment_name Hsn.
    apply (opt_get_names _ _ _ Hsegment) in Hsn.
    apply succeeds_bind; [apply succeeds_read|]. intros genre ->%read_field.
    apply succeeds_bind; [apply succeeds_opt_get|]. intros genre_name Hgn.
    apply (opt_get_names _ _ _ Hgenre) in Hgn.
    apply succeeds_push_if. intros _.
    apply succeeds_bind; [|intros; apply succeeds_ret].
    apply succeeds_mapM.
    destruct (truthy segment_name); destruct (truthy genre_name);
      unfold push; simpl; repeat constructor; now apply succeeds_string. }
  intros lines1 _.
  apply succeeds_bind; [apply succeeds_read|]. intros url ->%read_field.
  apply succeeds_bind; [|intros; apply succeeds_ret].
  apply succeeds_push_if. intros _.
  apply succeeds_bind; [now apply succeeds_string|]. intros; apply succeeds_ret.
Qed.

(** X15.  [formatAttractionAsText] never throws on a value of the
    interface [PartnerAttraction]. *)
Theorem attraction_projection_is_total (attraction : jsval) :
  is_PartnerAttraction attraction = true ->
  succeeds (formatAttractionAsText attraction).
Proof. apply formatAttractionAsText_total. Qed.

Lemma formatEventAsText_total (event : jsval) :
  is_PartnerEvent event = true -> succeeds (formatEventAsText event).
Proof.
  intros H. apply is_object_cases in H as (p & -> & H).
  repeat match type of H with
  | (_ && _) = true =>
      let H' := fresh "Hf" in apply andb_prop in H as [H H']
  end.
  apply is_string_cases in H as (id_s & Hid).
  assert (Hname : string_or_absent (lookup "name" p))
    by (right; now apply is_string_cases).
  assert (Hurl : string_or_absent (lookup "url" p))
    by (right; now apply is_string_cases).
  assert (Hprices : optional (is_array is_price_range)
                      (lookup "priceRanges" p) = true) by assumption.
  unfold formatEventAsText.
  apply succeeds_bind; [apply succeeds_read|]. intros name ->%read_field.
  apply succeeds_bind; [now apply succeeds_string|]. intros name_s _.
  apply succeeds_bind; [apply succeeds_read|]. intros id ->%read_field.
  apply succeeds_bind; [rewrite Hid; apply succeeds_ret|]. intros id_s' _.
  (* the date block *)
  apply succeeds_bind; [apply succeeds_read|]. intros dates ->%read_field.
  apply succeeds_bind; [apply succeeds_opt_get|]. intros start Hstart.
  apply succeeds_bind.
  { apply succeeds_push_if. intros Htruthy.
    match goal with
    | Hdates : optional (is_object _) (lookup "dates" p) = true |- _ =>
        apply optional_cases in Hdates as [Hnone|Hobj];
        [ rewrite Hnone in Hstart; injection Hstart as <-; discriminate
        | apply is_object_cases in Hobj as (d & Hd & Hshape) ]
    end.
    rewrite Hd in Hstart. apply read_field in Hstart. subst start.
    apply andb_prop in Hshape as [Hshape _].
    apply andb_prop in Hshape as [Hshape _].
    apply optional_cases in Hshape as [Hnone|Hshape];
      [rewrite Hnone in Htruthy; discriminate|].
    apply is_object_cases in Hshape as (s & Hs & Hshape). rewrite Hs.
    apply andb_prop in Hshape as [Hshape _].
    apply andb_prop in Hshape as [Hdate Htime].
    apply optional_string in Hdate. apply optional_string in Htime.
    apply succeeds_bind; [apply succeeds_read|]. intros localDate ->%read_field.
    apply succeeds_bind; [apply succeeds_read|]. intros localTime ->%read_field.
    apply succeeds_bind;
      [now apply succeeds_string, or_else_string|]. intros date_s _.
    apply succeeds_bind;
      [now apply succeeds_string, or_else_string|]. intros time_s _.
    apply succeeds_ret. }
  intros lines1 _.
  (* the venue block *)
  apply succeeds_bind; [apply succeeds_read|]. intros embedded ->%read_field.
  apply succeeds_bind; [apply succeeds_opt_get|]. intros venues Hvenues.
  assert (Hvs : optional (is_array is_PartnerVenue) venues = true).
  { match goal with
    | Hembedded : optional (is_object _) (lookup "_embedded" p) = true |- _ =>
        apply optional_cases in Hembedded as [Hnone|Hobj];
        [ rewrite Hnone in Hvenues; now injection Hvenues as <-
        | apply is_object_cases in Hobj as (e & He & Hshape) ]
    end.
    rewrite He in Hvenues. apply read_field in Hvenues. subst venues.
    now apply andb_prop in Hshape as [Hshape _]. }
  apply succeeds_bind; [now apply (succeeds_nonempty is_PartnerVenue)|].
  intros has_venues Hhas.
  apply succeeds_bind.
  { apply succeeds_if; [|intros; apply succeeds_ret]. intros ->.
    destruct (nonempty_first _ _ Hvs Hhas) as (v & r & -> & Hv).
    apply venue_view in Hv as (vp & [= ->] & Hvname & Hvcity & Hvstate).
    apply succeeds_bind; [rewrite read_first; apply succeeds_ret|].
    intros venue Hvenue. rewrite read_first in Hvenue. injection Hvenue as <-.
    apply succeeds_bind; [apply succeeds_read|]. intros venue_name ->%read_field.
    apply succeeds_bind; [now apply succeeds_string|]. intros venue_name_s _.
    apply succeeds_bind; [apply succeeds_read|]. intros city ->%read_field.
    apply succeeds_bind; [apply succeeds_opt_get|]. intros city_name Hcn.
    apply (opt_get_names _ _ _ Hvcity) in Hcn.
    apply succeeds_push_if. intros _.
    apply succeeds_bind; [now apply succeeds_string|]. intros city_s _.
    apply succeeds_bind; [apply succeeds_read|]. intros state ->%read_field.
    apply succeeds_bind; [|intros; apply succeeds_ret].
    apply succeeds_if; [|intros; apply succeeds_ret]. intros Hstate.
    destruct Hvstate as [Hnone|(fields & code & Hs & Hcode)];
      [rewrite Hnone in Hstate; discriminate|].
    rewrite Hs.
    apply succeeds_bind; [apply succeeds_read|]. intros stateCode ->%read_field.
    rewrite Hcode. apply succeeds_ret. }
  intros lines2 _.
  (* the price block *)
  apply succeeds_bind; [apply succeeds_read|]. intros priceRanges ->%read_field.
  apply succeeds_bind; [now apply (succeeds_nonempty is_price_range)|].
  intros has_prices Hhas_prices.
  apply succeeds_bind.
  { apply succeeds_push_if. intros ->.
    destruct (nonempty_first _ _ Hprices Hhas_prices) as (r0 & r & -> & Hr).
    unfold is_price_range in Hr.
    apply is_object_cases in Hr as (range & [= ->] & Hr).
    apply andb_prop in Hr as [Hr Hmax]. apply andb_prop in Hr as [Hr Hmin].
    apply andb_prop in Hr as [_ Hcurrency].
    apply is_number_cases in Hmin as (min & Hmin).
    apply is_number_cases in Hmax as (max & Hmax).
    apply is_string_cases in Hcurrency as (currency & Hcurrency).
    apply succeeds_bind; [rewrite read_first; apply succeeds_ret|].
    intros range' Hrange. rewrite read_first in Hrange. injection Hrange as <-.
    apply succeeds_bind; [apply succeeds_read|]. intros min' ->%read_field.
    apply succeeds_bind; [rewrite Hmin; apply succeeds_ret|]. intros min_s _.
    apply succeeds_bind; [apply succeeds_read|]. intros max' ->%read_field.
    apply succeeds_bind; [rewrite Hmax; apply succeeds_ret|]. intros max_s _.
    apply succeeds_bind; [apply succeeds_read|]. intros currency' ->%read_field.
    apply succeeds_bind; [rewrite Hcurrency; apply succeeds_ret|].
    intros; apply succeeds_ret. }
  intros lines3 _.
  apply succeeds_bind; [apply succeeds_read|]. intros url ->%read_field.
  apply succeeds_bind; [|intros; apply succeeds_ret].
  apply succeeds_push_if. intros _.
  apply succeeds_bind; [now apply succeeds_string|]. intros; apply succeeds_ret.
Qed.

(** X16.  [formatEventAsText] never throws on a value of the interface
    [PartnerEvent]. *)
Theorem event_projection_is_total (event : jsval) :
  is_PartnerEvent event = true -> succeeds (formatEventAsText event).
Proof. apply formatEventAsText_total. Qed.

(** *** What the handler returns for typed bodies *)

Lemma texts_exist {A} (f : A -> R num string) (l : list A) :
  Forall (fun x => succeeds (f x)) l ->
  exists ys, Forall2 (fun x y => f x = inr y) l ys.
Proof.
  induction 1 as [|x r (y & Hy) _ (ys & IH)].
  - exists []. constructor.
  - exists (y :: ys). now constructor.
Qed.

Lemma typed_array_total (check : jsval -> bool) (path : string)
  (f : jsval -> R num string) (v : jsval) :
  (forall x, check x = true -> succeeds (f x)) ->
  optional (is_array check) v = true ->
  truthy v = true ->
  succeeds (array_map_join path f separator v).
Proof.
  intros Hf [->|H]%optional_cases Ht; [discriminate|].
  apply is_array_cases in H as (items & -> & Hall).
  unfold array_map_join. apply succeeds_bind; [|intros; apply succeeds_ret].
  apply succeeds_mapM. eapply Forall_impl; [|exact Hall].
  intros x Hx. now apply Hf.
Qed.

(** X17.  In text mode the handler returns a result for every search
    response of the annotated shape: an [_embedded] wrapper whose [events],
    [venues] and [attractions], where present, are arrays of the
    interfaces.  No property read and no conversion throws on it. *)
Theorem typed_results_have_a_text (a : tool_args) (results : json) :
  is_str "text" (arg_format a) = true ->
  is_search_results (Some results) = true ->
  succeeds (render a results).
Proof.
  intros Hf H. unfold is_search_results in H.
  apply is_object_cases in H as (p & [= ->] & H).
  apply is_object_cases in H as (e & He & H).
  apply andb_prop in H as [H Hat]. apply andb_prop in H as [Hev Hv].
  rewrite (render_text a _ Hf).
  apply succeeds_bind; [|intros; apply succeeds_ret].
  unfold text_output.
  apply succeeds_bind; [apply succeeds_read|]. intros embedded ->%read_field.
  rewrite He. change (truthy (Some (JObj e))) with true. cbv iota.
  apply succeeds_bind; [apply succeeds_read|]. intros events ->%read_field.
  apply succeeds_if; intros Ht.
  { now apply (typed_array_total is_PartnerEvent), Ht;
      [apply formatEventAsText_total|]. }
  apply succeeds_bind; [apply succeeds_read|]. intros venues ->%read_field.
  apply succeeds_if; intros Ht'.
  { now apply (typed_array_total is_PartnerVenue), Ht';
      [apply formatVenueAsText_total|]. }
  apply succeeds_bind; [apply succeeds_read|]. intros attractions ->%read_field.
  apply succeeds_if; intros Ht''; [|apply succeeds_ret].
  now apply (typed_array_total is_PartnerAttraction), Ht'';
    [apply formatAttractionAsText_total|].
Qed.

(** X18.  An event of the interface [PartnerEvent] that carries an
    [_embedded] wrapper with a [venues] array (and no [events] field) is
    not shown as an event: in text mode the handler takes the wrapper for
    search results and returns the venue projections of the embedded
    venues, joined by the separator, whatever the kind of the request;
    with an empty [venues] array it returns the sentinel text. *)
Theorem event_with_embedded_venues_is_shown_as_its_venues
  (a : tool_args) (p e : list (string * json)) (vs : list json) :
  is_str "text" (arg_format a) = true ->
  is_PartnerEvent (Some (JObj p)) = true ->
  lookup "_embedded" p = Some (JObj e) ->
  lookup "events" e = None ->
  lookup "venues" e = Some (JArr vs) ->
  exists texts,
    Forall2 (fun v t => formatVenueAsText (Some v) = inr t) vs texts
    /\ Forall (begins_with "V") texts
    /\ render a (JObj p)
       = inr (text_result
                match vs with
                | [] => "No results found."
                | _ :: _ => String.concat separator texts
                end).
Proof.
  intros Hf H He Hev Hv. unfold is_PartnerEvent in H. simpl is_object in H.
  apply andb_prop in H as [_ H]. rewrite He in H. simpl in H.
  apply andb_prop in H as [H _]. rewrite Hv in H.
  apply optional_cases in H as [[=]|H].
  apply (is_array_cases is_PartnerVenue) in H as (items & [= <-] & Hall).
  destruct (texts_exist (fun v => formatVenueAsText (Some v)) vs)
    as (texts & Htexts).
  { eapply Forall_impl; [|exact Hall].
    intros v Hshape. now apply formatVenueAsText_total. }
  exists texts. split; [exact Htexts|]. split.
  - clear - Htexts. induction Htexts as [|v t vs texts Ht _ IH]; constructor.
    + exact (formatVenueAsText_head _ _ Ht).
    + exact IH.
  - rewrite (render_text a _ Hf).
    assert (Ho : text_output (arg_type a) (JObj p)
                 = inr (String.concat separator texts)).
    { unfold text_output. simpl get. rewrite He. simpl.
      rewrite Hev, Hv. simpl. now rewrite (mapM_Forall2 _ _ _ Htexts). }
    rewrite Ho. simpl. unfold ret. do 2 f_equal.
    exact (joined_or_no_results "V" _ vs texts
             (fun x t => formatVenueAsText_head (Some x) t) Htexts).
Qed.

(** *** What the projections read of a list *)

Lemma read_first_hd (items : list json) :
  get (Some (JArr items)) "0" = inr (hd_error items).
Proof. now destruct items. Qed.

Lemma nonempty_hd (items : list json) :
  nonempty (Some (JArr items))
  = inr (match hd_error items with Some _ => true | None => false end).
Proof. rewrite nonempty_array. now destruct items. Qed.

(** X19.  [formatEventAsText] reads only the first embedded venue and the
    first price range: two events that agree on [name], [id], [dates] and
    [url], on the first element of [_embedded.venues] and on the first
    element of [priceRanges] have the same projection. *)
Theorem event_projection_reads_first_venue_and_price
  (p1 p2 e1 e2 : list (string * json)) (vs1 vs2 rs1 rs2 : list json) :
  lookup "name" p1 = lookup "name" p2 ->
  lookup "id" p1 = lookup "id" p2 ->
  lookup "dates" p1 = lookup "dates" p2 ->
  lookup "url" p1 = lookup "url" p2 ->
  lookup "_embedded" p1 = Some (JObj e1) ->
  lookup "_embedded" p2 = Some (JObj e2) ->
  lookup "venues" e1 = Some (JArr vs1) ->
  lookup "venues" e2 = Some (JArr vs2) ->
  lookup "priceRanges" p1 = Some (JArr rs1) ->
  lookup "priceRanges" p2 = Some (JArr rs2) ->
  hd_error vs1 = hd_error vs2 ->
  hd_error rs1 = hd_error rs2 ->
  formatEventAsText (Some (JObj p1)) = formatEventAsText (Some (JObj p2)).
Proof.
  intros Hname Hid Hdates Hurl He1 He2 Hv1 Hv2 Hr1 Hr2 Hvs Hrs.
  unfold formatEventAsText. cbn [get bind ret].
  rewrite Hname, Hid, Hdates, Hurl, He1, He2.
  cbn [opt_get get bind ret]. rewrite Hv1, Hv2, Hr1, Hr2.
  rewrite !nonempty_hd, !read_first_hd, Hvs, Hrs.
  reflexivity.
Qed.

Lemma find_primary_flagged (cs : list json) :
  Forall (fun c => c <> JNull) cs ->
  find_primary cs = inr (find flagged cs).
Proof.
  induction 1 as [|c r Hc _ IH]; [reflexivity|].
  cbn [find_primary find]. unfold flagged at 1.
  destruct c as [| | |s|items|fields]; try easy; cbn [get bind ret];
    try exact IH;
    try (now destruct (truthy (lookup "primary" fields)));
    change (String.eqb "primary" "length") with false; cbv iota;
    change (Dec.index_of_key "primary") with (@None nat); cbv iota;
    cbn [bind ret truthy]; exact IH.
Qed.

Lemma flagged_object (c : json) : flagged c = true -> truthy (Some c) = true.
Proof. destruct c; simpl; try discriminate. reflexivity. Qed.

Lemma chosen_read (cs : list json) :
  (if truthy (find flagged cs) then ret (find flagged cs)
   else get (Some (JArr cs)) "0")
  = (inr (chosen_classification cs) : R num jsval).
Proof.
  unfold chosen_classification. destruct (find flagged cs) as [c|] eqn:E.
  - apply find_some in E as [_ E]. now rewrite (flagged_object _ E).
  - simpl truthy. cbv iota. apply read_first_hd.
Qed.

(** X20.  Of a list of classifications [formatAttractionAsText] reads one
    entry only: the first one whose [primary] is set, or else the first
    one.  Two attractions that agree on [name], [id] and [url] and whose
    (null-free) classification lists have the same such entry have the
    same projection. *)
Theorem attraction_projection_reads_chosen_classification
  (p1 p2 : list (string * json)) (cs1 cs2 : list json) :
  lookup "name" p1 = lookup "name" p2 ->
  lookup "id" p1 = lookup "id" p2 ->
  lookup "url" p1 = lookup "url" p2 ->
  lookup "classifications" p1 = Some (JArr cs1) ->
  lookup "classifications" p2 = Some (JArr cs2) ->
  Forall (fun c => c <> JNull) cs1 ->
  Forall (fun c => c <> JNull) cs2 ->
  chosen_classification cs1 = chosen_classification cs2 ->
  formatAttractionAsText (Some (JObj p1)) = formatAttractionAsText (Some (JObj p2)).
Proof.
  intros Hname Hid Hurl Hc1 Hc2 Hn1 Hn2 Hchosen.
  assert (Hsame : match hd_error cs1 with Some _ => true | None => false end
                  = match hd_error cs2 with Some _ => true | None => false end).
  { unfold chosen_classification in Hchosen.
    destruct cs1 as [|c1 r1], cs2 as [|c2 r2]; try reflexivity; exfalso;
      simpl hd_error in Hchosen;
      [ destruct (find flagged (c2 :: r2)) | destruct (find flagged (c1 :: r1)) ];
      discriminate. }
  unfold formatAttractionAsText. cbn [get bind ret].
  rewrite Hname, Hid, Hurl, Hc1, Hc2.
  rewrite !nonempty_hd, Hsame.
  unfold array_find_primary.
  rewrite (find_primary_flagged _ Hn1), (find_primary_flagged _ Hn2).
  cbn [bind]. rewrite !chosen_read, Hchosen.
  reflexivity.
Qed.

End Shapes.

(** * The theorems at concrete inputs

    Integers as numbers, Node.js as the host, and an upstream that gives
    every request the same answer. *)

Module Examples.

Import Node.

Definition answering (r : http_response double)
  : http_request (num:=double) -> option (http_response double) :=
  fun _ => Some r.

Definition ok (body : json double) : http_response double :=
  {| status := 200; statusText := "OK"; data := body |}.


Definition garden : json double :=
  JObj [("name", JStr "The Garden"); ("id", JStr "KovZpZA7AAEA");
        ("city", JObj [("name", JStr "New York")]);
        ("state", JObj [("stateCode", JStr "NY")]);
        ("url", JStr "https://example.test/garden")].

Definition forum : json double :=
  JObj [("name", JStr "The Forum"); ("id", JStr "KovZpZAEkn6A")].

Definition two_venues : json double :=
  JObj [("_embedded", JObj [("venues", JArr [garden; forum])]);
        ("page", JObj [("size", JNum (int 20)); ("totalElements", JNum (int 2))])].

Definition venue_by_id_and_keyword : list (string * json double) :=
  [("type", JStr "venue"); ("venueId", JStr "KovZpZA7AAEA");
   ("keyword", JStr "garden")].

Definition venue_by_id : list (string * json double) :=
  [("type", JStr "venue"); ("venueId", JStr "KovZpZA7AAEA")].

Lemma venue_attraction_fetch_or_search_witness :
  (fst (invoke (answering (ok two_venues)) (search_request venue_by_id_and_keyword))
   = [ {| url := "/venues";
          params := Some (venue_search_params (args_of venue_by_id_and_keyword)) |} ]
   /\ param "keyword" (venue_search_params (args_of venue_by_id_and_keyword))
      = Some (Some (JStr "garden"))
   /\ param "venueId" (venue_search_params (args_of venue_by_id_and_keyword))
      = None)
  /\ fst (invoke (answering (ok garden)) (search_request venue_by_id))
     = [ {| url := "/venues/KovZpZA7AAEA"; params := None |} ].
Proof.
  split.
  - exact (proj1 (proj1 (venue_attraction_fetch_or_search
                           (answering (ok two_venues)) venue_by_id_and_keyword)
                        eq_refl)
                 eq_refl eq_refl).
  - exact (proj2 (proj2 (proj1 (venue_attraction_fetch_or_search
                                  (answering (ok garden)) venue_by_id)
                               eq_refl)
                        "KovZpZA7AAEA" eq_refl)
                 (conj eq_refl eq_refl)).
Defined.

Definition venue_by_id_and_empty_keyword : list (string * json double) :=
  [("type", JStr "venue"); ("venueId", JStr "KovZpZA7AAEA");
   ("keyword", JStr "")].

(** C1 as stated fails here: [venueId] and [keyword] are both supplied, and
    the one request sent is the fetch of the venue, not a search. *)
Lemma venue_id_with_empty_keyword_is_fetched :
  let calls :=
    fst (invoke (answering (ok garden))
           (search_request venue_by_id_and_empty_keyword)) in
  lookup "type" venue_by_id_and_empty_keyword = Some (JStr "venue")
  /\ supplied (lookup "venueId" venue_by_id_and_empty_keyword) = true
  /\ supplied (lookup "keyword" venue_by_id_and_empty_keyword) = true
  /\ calls = [ {| url := "/venues/KovZpZA7AAEA"; params := None |} ]
  /\ ~ (exists ps, calls = [ {| url := "/venues"; params := Some ps |} ]).
Proof.
  repeat split. intros (ps & H). discriminate H.
Qed.

Definition event_by_empty_id : list (string * json double) :=
  [("type", JStr "event"); ("eventId", JStr "")].

(** C2 as stated fails here: an [eventId] is supplied, and the one request
    sent is the search, with its sixteen parameters, not a fetch. *)
Lemma event_with_empty_id_is_searched :
  let calls :=
    fst (invoke (answering (ok two_venues)) (search_request event_by_empty_id)) in
  lookup "type" event_by_empty_id = Some (JStr "event")
  /\ supplied (lookup "eventId" event_by_empty_id) = true
  /\ calls
     = [ {| url := "/events";
            params := Some
              [ ("keyword", None); ("attractionId", None); ("venueId", None);
                ("postalCode", None); ("latlong", None); ("radius", None);
                ("unit", None); ("startDateTime", None); ("endDateTime", None);
                ("size", Some (JNum (int 20))); ("page", Some (JNum (int 0)));
                ("sort", None); ("city", None); ("countryCode", None);
                ("stateCode", None); ("classificationName", None) ] |} ]
  /\ ~ (exists id_s, calls = [ {| url := "/events/" ++ id_s; params := None |} ]).
Proof.
  repeat split. intros (id_s & H). discriminate H.
Qed.

Definition event_by_id : list (string * json double) :=
  [("type", JStr "event"); ("eventId", JStr "G5diZfkn0B-bh");
   ("keyword", JStr "ignored"); ("city", JStr "Boston")].

Lemma event_fetch_or_search_witness :
  fst (invoke (answering (ok JNull)) (search_request event_by_id))
  = [ {| url := "/events/G5diZfkn0B-bh"; params := None |} ].
Proof.
  exact (proj1 (event_fetch_or_search (answering (ok JNull)) event_by_id eq_refl)
               eq_refl "G5diZfkn0B-bh" eq_refl).
Defined.

Definition bogus_kind : list (string * json double) := [("type", JStr "bogus")].

(** The failing input of C3: the error has the code [InternalError]. *)
Lemma unknown_kind_leaves_as_internal_error_witness :
  invoke (answering (ok JNull)) (search_request bogus_kind)
  = ([], inl (McpError InternalError
                "Error: MCP error -32602: Invalid search type: bogus. Must be 'event', 'venue', or 'attraction'.")).
Proof.
  exact (unknown_kind_leaves_as_internal_error (answering (ok JNull)) bogus_kind
           "bogus" eq_refl eq_refl eq_refl eq_refl).
Defined.




Definition text_venue_args : tool_args (num:=double) :=
  args_of [("type", JStr "venue"); ("format", JStr "text")].

Lemma embedded_collection_is_joined_witness :
  render text_venue_args two_venues
  = inr (text_result
           (("Venue: The Garden (ID: KovZpZA7AAEA)" ++ nl
             ++ "Location: New York, NY" ++ nl
             ++ "URL: https://example.test/garden")
            ++ separator
            ++ "Venue: The Forum (ID: KovZpZAEkn6A)")).
Proof.
  exact (proj2 (proj2 (proj2 (proj2
           (embedded_collection_is_joined text_venue_args
              [("_embedded", JObj [("venues", JArr [garden; forum])]);
               ("page", JObj [("size", JNum (int 20)); ("totalElements", JNum (int 2))])]
              [("venues", JArr [garden; forum])] eq_refl eq_refl))))
           garden forum _ _ eq_refl eq_refl eq_refl eq_refl).
Defined.

Lemma bare_event_is_one_line_witness :
  formatEventAsText
    (Some (JObj [("name", JStr "Hamilton"); ("id", JStr "G5diZfkn0B-bh");
                 ("priceRanges", JArr [])] : json double))
  = inr "Event: Hamilton (ID: G5diZfkn0B-bh)".
Proof.
  exact (bare_event_is_one_line
           [("name", JStr "Hamilton"); ("id", JStr "G5diZfkn0B-bh");
            ("priceRanges", JArr [])]
           "Hamilton" "G5diZfkn0B-bh"
           eq_refl eq_refl eq_refl eq_refl eq_refl eq_refl).
Defined.

Lemma two_venues_distinct_keys : distinct_keys two_venues.
Proof.
  simpl. repeat split; repeat constructor; simpl; intuition discriminate.
Qed.

Lemma two_venues_plain_numbers : plain_numbers two_venues.
Proof. vm_compute. repeat split. Qed.

Lemma json_output_round_trips_witness :
  exists text,
    snd (invoke (answering (ok two_venues)) (search_request venue_by_id_and_keyword))
    = inr {| content := [ {| content_type := "text"; text := text |} ] |}
    /\ text = JSON_stringify two_venues
    /\ JSON_parse text = Some two_venues.
Proof.
  destruct (json_output_round_trips (answering (ok two_venues))
              venue_by_id_and_keyword
              {| url := "/venues";
                 params := Some (venue_search_params
                                   (args_of venue_by_id_and_keyword)) |}
              (ok two_venues) eq_refl eq_refl eq_refl eq_refl)
    as (text & Hresult & Htext & Hback & _).
  exists text. split; [exact Hresult|]. split; [exact Htext|].
  exact (Hback two_venues_distinct_keys two_venues_plain_numbers).
Defined.

(** The body axios delivers for the payload [{"max": 1e999}]: the literal
    overflows, and is read as Infinity. *)
Definition overflowing : json double := JObj [("max", JNum (Infinity false))].

(** C7 as stated fails here: the number comes back as [null], so the text
    returned does not read back as the upstream body. *)
Lemma infinite_number_is_returned_as_null :
  exists text,
    snd (invoke (answering (ok overflowing)) (search_request venue_by_id))
    = inr {| content := [ {| content_type := "text"; text := text |} ] |}
    /\ distinct_keys overflowing
    /\ JSON_parse text = Some (JObj [("max", JNull)])
    /\ JSON_parse text <> Some overflowing.
Proof.
  eexists. split; [reflexivity|]. split.
  - simpl. repeat split; repeat constructor; simpl; intuition discriminate.
  - split; [reflexivity | discriminate].
Qed.

Definition text_event_args : tool_args (num:=double) :=
  args_of [("type", JStr "event"); ("format", JStr "text")].

Lemma kind_selects_only_without_wrapper_witness :
  render text_venue_args two_venues = render text_event_args two_venues
  /\ text_output (arg_type text_venue_args) garden
     = formatVenueAsText (Some garden).
Proof.
  split.
  - exact (proj1 (kind_selects_only_without_wrapper
                    text_venue_args text_event_args
                    [("_embedded", JObj [("venues", JArr [garden; forum])]);
                     ("page", JObj [("size", JNum (int 20));
                                    ("totalElements", JNum (int 2))])]
                    eq_refl eq_refl)
                 [("venues", JArr [garden; forum])] eq_refl).
  - exact (proj1 (proj2 (proj2 (kind_selects_only_without_wrapper
                                  text_venue_args text_event_args
                                  [("name", JStr "The Garden");
                                   ("id", JStr "KovZpZA7AAEA");
                                   ("city", JObj [("name", JStr "New York")]);
                                   ("state", JObj [("stateCode", JStr "NY")]);
                                   ("url", JStr "https://example.test/garden")]
                                  eq_refl eq_refl)
                               eq_refl))
                 eq_refl).
Defined.

Definition with_market : list (string * json double) :=
  [("type", JStr "event"); ("marketId", JStr "35"); ("keyword", JStr "jazz")].

Definition with_locale : list (string * json double) :=
  [("type", JStr "event"); ("keyword", JStr "jazz"); ("locale", JStr "en-us")].

Lemma with_market_like_with_locale (k : string) :
  ~ In k unread_fields -> lookup k with_market = lookup k with_locale.
Proof.
  intros Hk. unfold with_market, with_locale. simpl.
  destruct (String.eqb_spec k "type"); [reflexivity|].
  destruct (String.eqb_spec k "marketId") as [->|].
  { exfalso. apply Hk. simpl. auto. }
  destruct (String.eqb_spec k "keyword"); [reflexivity|].
  destruct (String.eqb_spec k "locale") as [->|]; [|reflexivity].
  exfalso. apply Hk. simpl. auto 6.
Qed.

Lemma unread_fields_do_not_matter_witness :
  invoke (answering (ok two_venues)) (search_request with_market)
  = invoke (answering (ok two_venues)) (search_request with_locale).
Proof.
  exact (proj1 (unread_fields_do_not_matter (answering (ok two_venues))
                  with_market with_locale with_market_like_with_locale)).
Defined.

Definition event_with_empty_id : list (string * json double) :=
  [("type", JStr "event"); ("eventId", JStr ""); ("keyword", JStr "jazz")].

Definition event_without_id : list (string * json double) :=
  [("type", JStr "event"); ("keyword", JStr "jazz")].

Lemma event_without_id_spec : without "eventId" event_with_empty_id event_without_id.
Proof.
  split; [reflexivity|]. intros k Hk.
  unfold event_with_empty_id, event_without_id. simpl.
  destruct (String.eqb_spec k "type"); [reflexivity|].
  destruct (String.eqb_spec k "eventId"); [contradiction|reflexivity].
Qed.

Lemma empty_identifier_is_absent_witness :
  fst (invoke (answering (ok two_venues)) (search_request event_with_empty_id))
  = [ {| url := "/events";
         params := Some (event_search_params (args_of event_with_empty_id)) |} ]
  /\ invoke (answering (ok two_venues)) (search_request event_with_empty_id)
     = invoke (answering (ok two_venues)) (search_request event_without_id).
Proof.
  pose proof (proj1 (empty_identifier_is_absent (answering (ok two_venues))
                       event_with_empty_id event_without_id)
                    eq_refl eq_refl) as [H1 H2].
  exact (conj H1 (H2 event_without_id_spec)).
Defined.

End Examples.

(** * The further properties at concrete inputs *)

Module FurtherExamples.

Import Node.
Import Examples.

(** A transport that never answers. *)
Definition silent : http_request (num:=double) -> option (http_response double) :=
  fun _ => None.

Definition arena : json double :=
  JObj [("id", JStr "KovZpZA7AAEA"); ("name", JStr "The Arena");
        ("type", JStr "venue"); ("url", JStr "https://example.test/arena");
        ("locale", JStr "en-us"); ("timezone", JStr "America/New_York");
        ("city", JObj [("name", JStr "New York")]);
        ("state", JObj [("name", JStr "New York"); ("stateCode", JStr "NY")]);
        ("country", JObj [("name", JStr "United States");
                          ("countryCode", JStr "US")]);
        ("address", JObj [("line1", JStr "4 Pennsylvania Plaza")]);
        ("location", JObj [("longitude", JStr "-73.9916006");
                           ("latitude", JStr "40.7497062")])].

Definition hall : json double :=
  JObj [("id", JStr "KovZpZAEkn6A"); ("name", JStr "The Hall");
        ("type", JStr "venue"); ("url", JStr "https://example.test/hall");
        ("locale", JStr "en-us")].

Definition music : json double :=
  JObj [("primary", JBool true);
        ("segment", JObj [("id", JStr "KZFzniwnSyZfZ7v7nJ"); ("name", JStr "Music")]);
        ("genre", JObj [("id", JStr "KnvZfZ7vAvE"); ("name", JStr "Jazz")])].

Definition theatre : json double :=
  JObj [("primary", JBool false);
        ("segment", JObj [("id", JStr "KZFzniwnSyZfZ7v7na");
                          ("name", JStr "Arts & Theatre")])].

Definition band_with (classifications : list (json double)) : list (string * json double) :=
  [("id", JStr "K8vZ9171ob7"); ("name", JStr "The Band");
   ("type", JStr "attraction"); ("url", JStr "https://example.test/band");
   ("locale", JStr "en-us");
   ("classifications", JArr classifications)].

Definition price (type : string) (min max : Z) : json double :=
  JObj [("type", JStr type); ("currency", JStr "USD");
        ("min", JNum (int min)); ("max", JNum (int max))].

Definition concert_with (venues prices : list (json double)) : list (string * json double) :=
  [("id", JStr "G5diZfkn0B-bh"); ("name", JStr "The Concert");
   ("type", JStr "event"); ("url", JStr "https://example.test/concert");
   ("locale", JStr "en-us");
   ("dates", JObj [("start", JObj [("localDate", JStr "2026-11-03")]);
                   ("timezone", JStr "America/New_York")]);
   ("priceRanges", JArr prices);
   ("_embedded", JObj [("venues", JArr venues)])].

Definition found_venues : json double :=
  JObj [("_embedded", JObj [("venues", JArr [arena; hall])])].

Definition venue_by_id_as_text : list (string * json double) :=
  [("type", JStr "venue"); ("venueId", JStr "KovZpZA7AAEA");
   ("format", JStr "text")].

Lemma at_most_one_known_request_witness :
  fst (invoke (answering (ok hall)) (search_request venue_by_id_as_text)) = []
  \/ exists req,
       fst (invoke (answering (ok hall)) (search_request venue_by_id_as_text))
       = [req]
       /\ known_endpoint req.
Proof.
  exact (at_most_one_known_request (answering (ok hall))
           (search_request venue_by_id_as_text)).
Defined.

Lemma failures_leave_as_internal_errors_witness :
  (exists text,
     McpError InternalError
       "Error: Cannot read properties of null (reading '_embedded')"
     = McpError (num:=double) InternalError text)
  \/ McpError InternalError
       "Error: Cannot read properties of null (reading '_embedded')"
     = TypeError (num:=double) CannotConvertToPrimitive.
Proof.
  exact (failures_leave_as_internal_errors (answering (ok JNull))
           (search_request venue_by_id_as_text) _ eq_refl).
Defined.

Lemma results_hold_one_nonempty_text_witness :
  exists t,
    content (text_result ("Venue: The Hall (ID: KovZpZAEkn6A)" ++ nl
                          ++ "URL: https://example.test/hall"))
    = [ {| content_type := "text"; text := t |} ] /\ t <> "".
Proof.
  exact (results_hold_one_nonempty_text (answering (ok hall))
           (search_request venue_by_id_as_text) _ eq_refl).
Defined.

Lemma unknown_tool_leaves_as_internal_error_witness :
  invoke (answering (ok JNull)) {| name := "other"; arguments := None |}
  = ([], inl (McpError InternalError
                "Error: MCP error -32601: Unknown tool: other")).
Proof.
  exact (unknown_tool_leaves_as_internal_error (answering (ok JNull))
           {| name := "other"; arguments := None |} ltac:(discriminate)).
Defined.

Lemma no_response_is_reported_witness :
  snd (invoke silent (search_request venue_by_id))
  = inl (McpError InternalError "No response from Ticketmaster Partner API").
Proof.
  exact (no_response_is_reported silent (search_request venue_by_id)
           {| url := "/venues/KovZpZA7AAEA"; params := None |}
           eq_refl eq_refl).
Defined.

Lemma missing_arguments_fail_before_any_request_witness :
  invoke silent {| name := "search_tm_partner"; arguments := None |}
  = ([], inl (McpError InternalError
                "Error: Cannot destructure property 'type' of 'args' as it is undefined.")).
Proof.
  exact (missing_arguments_fail_before_any_request silent
           {| name := "search_tm_partner"; arguments := None |}
           eq_refl eq_refl).
Defined.

Lemma with_market_declares_like_with_locale (k : string) :
  In k (map fst (declared_properties (num:=double))) ->
  lookup k with_market = lookup k with_locale.
Proof.
  intros Hk. simpl in Hk.
  repeat destruct Hk as [<-|Hk]; try reflexivity. contradiction.
Qed.

Lemma undeclared_arguments_are_ignored_witness :
  invoke (answering (ok found_venues)) (search_request with_market)
  = invoke (answering (ok found_venues)) (search_request with_locale).
Proof.
  exact (undeclared_arguments_are_ignored (answering (ok found_venues))
           with_market with_locale with_market_declares_like_with_locale).
Defined.

Definition jazz_venues : list (string * json double) :=
  [("type", JStr "venue"); ("keyword", JStr "jazz")].

Definition twenty_jazz_venues : list (string * json double) :=
  ("size", JNum (int 20)) :: jazz_venues.

Lemma twenty_is_the_default (k : string) :
  k <> "size" -> lookup k twenty_jazz_venues = lookup k jazz_venues.
Proof.
  intros Hk. unfold twenty_jazz_venues. simpl.
  destruct (String.eqb_spec k "size"); [contradiction|reflexivity].
Qed.

Lemma declared_defaults_are_applied_witness :
  invoke (answering (ok found_venues)) (search_request jazz_venues)
  = invoke (answering (ok found_venues)) (search_request twenty_jazz_venues).
Proof.
  exact (declared_defaults_are_applied (answering (ok found_venues))
           "size" (JNum (int 20)) jazz_venues twenty_jazz_venues
           eq_refl eq_refl eq_refl twenty_is_the_default).
Defined.

Definition jazz_in_boston : list (string * json double) :=
  [("type", JStr "event"); ("keyword", JStr "jazz"); ("city", JStr "Boston");
   ("unit", JStr "km"); ("classificationName", JArr [JStr "Music"]);
   ("size", JNum (int 5)); ("format", JStr "text")].

Lemma conforming_call_makes_one_client_call_witness :
  exists req,
    fst (invoke (answering (ok found_venues)) (search_request jazz_in_boston))
    = [req]
    /\ known_endpoint req.
Proof.
  exact (conforming_call_makes_one_client_call (answering (ok found_venues))
           jazz_in_boston eq_refl).
Defined.

Definition event_by_id_alone : list (string * json double) :=
  [("type", JStr "event"); ("eventId", JStr "G5diZfkn0B-bh")].

Lemma event_by_id_reads_alike (k : string) :
  In k event_fetch_fields -> lookup k event_by_id = lookup k event_by_id_alone.
Proof.
  intros Hk. simpl in Hk.
  repeat destruct Hk as [<-|Hk]; try reflexivity. contradiction.
Qed.

Lemma fetch_ignores_every_filter_witness :
  invoke (answering (ok JNull)) (search_request event_by_id)
  = invoke (answering (ok JNull)) (search_request event_by_id_alone).
Proof.
  exact (proj1 (fetch_ignores_every_filter (answering (ok JNull))
                  event_by_id event_by_id_alone)
               eq_refl eq_refl event_by_id_reads_alike).
Defined.

Definition jazz_venues_in_november : list (string * json double) :=
  [("type", JStr "venue"); ("startDateTime", JStr "2026-11-01T00:00:00Z");
   ("keyword", JStr "jazz"); ("classificationName", JArr [JStr "Music"])].

Lemma november_is_not_read (k : string) :
  ~ In k venue_unused ->
  lookup k jazz_venues_in_november = lookup k jazz_venues.
Proof.
  intros Hk. unfold jazz_venues_in_november, jazz_venues. simpl.
  destruct (String.eqb_spec k "type"); [reflexivity|].
  destruct (String.eqb_spec k "startDateTime") as [->|].
  { exfalso. apply Hk. simpl. auto. }
  destruct (String.eqb_spec k "keyword"); [reflexivity|].
  destruct (String.eqb_spec k "classificationName") as [->|]; [|reflexivity].
  exfalso. apply Hk. simpl. auto 6.
Qed.

Lemma venue_requests_ignore_dates_and_classes_witness :
  invoke (answering (ok found_venues)) (search_request jazz_venues_in_november)
  = invoke (answering (ok found_venues)) (search_request jazz_venues).
Proof.
  exact (venue_requests_ignore_dates_and_classes (answering (ok found_venues))
           jazz_venues_in_november jazz_venues eq_refl november_is_not_read).
Defined.

Definition bands : list (string * json double) :=
  [("type", JStr "attraction"); ("keyword", JStr "band")].

Definition bands_in_boston : list (string * json double) :=
  [("type", JStr "attraction"); ("city", JStr "Boston");
   ("keyword", JStr "band"); ("radius", JStr "10")].

Lemma boston_is_not_read (k : string) :
  ~ In k attraction_unused -> lookup k bands_in_boston = lookup k bands.
Proof.
  intros Hk. unfold bands_in_boston, bands. simpl.
  destruct (String.eqb_spec k "type"); [reflexivity|].
  destruct (String.eqb_spec k "city") as [->|].
  { exfalso. apply Hk. simpl. auto 6. }
  destruct (String.eqb_spec k "keyword"); [reflexivity|].
  destruct (String.eqb_spec k "radius") as [->|]; [|reflexivity].
  exfalso. apply Hk. simpl. auto 12.
Qed.

Lemma attraction_requests_ignore_dates_and_places_witness :
  invoke (answering (ok JNull)) (search_request bands_in_boston)
  = invoke (answering (ok JNull)) (search_request bands).
Proof.
  exact (attraction_requests_ignore_dates_and_places (answering (ok JNull))
           bands_in_boston bands eq_refl boston_is_not_read).
Defined.

Lemma price_distinct_keys type min max : distinct_keys (price type min max).
Proof.
  simpl. repeat split; repeat constructor; simpl; intuition discriminate.
Qed.

Lemma price_plain_numbers type min max : plain_numbers (price type min max).
Proof.
  simpl. repeat split; unfold int;
    destruct (Bool.bool_dec _ true); try destruct (0 <? _)%Z; reflexivity.
Qed.

Lemma distinct_bodies_have_distinct_json_results_witness :
  render (args_of [("type", JStr "event")]) (price "standard" 35 120)
  <> render (args_of [("type", JStr "event")]) (price "vip" 250 400).
Proof.
  apply (proj1 (distinct_bodies_have_distinct_json_results
                  (args_of [("type", JStr "event")])
                  (price "standard" 35 120) (price "vip" 250 400) eq_refl));
    try apply price_distinct_keys; try apply price_plain_numbers.
  discriminate.
Defined.

Lemma venue_projection_is_total_witness :
  succeeds (formatVenueAsText (Some arena)).
Proof. exact (venue_projection_is_total (Some arena) eq_refl). Defined.

Lemma attraction_projection_is_total_witness :
  succeeds (formatAttractionAsText (Some (JObj (band_with [theatre; music])))).
Proof.
  exact (attraction_projection_is_total
           (Some (JObj (band_with [theatre; music]))) eq_refl).
Defined.

Lemma event_projection_is_total_witness :
  succeeds
    (formatEventAsText
       (Some (JObj (concert_with [arena] [price "standard" 35 120])))).
Proof.
  exact (event_projection_is_total
           (Some (JObj (concert_with [arena] [price "standard" 35 120])))
           eq_refl).
Defined.

Lemma typed_results_have_a_text_witness :
  succeeds (render text_venue_args found_venues).
Proof.
  exact (typed_results_have_a_text text_venue_args found_venues eq_refl eq_refl).
Defined.

Lemma event_with_embedded_venues_is_shown_as_its_venues_witness :
  exists texts,
    Forall2 (fun v t => formatVenueAsText (Some v) = inr t) [arena; hall] texts
    /\ Forall (begins_with "V") texts
    /\ render text_event_args (JObj (concert_with [arena; hall] []))
       = inr (text_result (String.concat separator texts)).
Proof.
  exact (event_with_embedded_venues_is_shown_as_its_venues text_event_args
           (concert_with [arena; hall] []) [("venues", JArr [arena; hall])]
           [arena; hall] eq_refl eq_refl eq_refl eq_refl eq_refl).
Defined.

Lemma event_projection_reads_first_venue_and_price_witness :
  formatEventAsText
    (Some (JObj (concert_with [arena; hall]
                   [price "standard" 35 120; price "vip" 250 400])))
  = formatEventAsText
      (Some (JObj (concert_with [arena] [price "standard" 35 120]))).
Proof.
  exact (event_projection_reads_first_venue_and_price
           (concert_with [arena; hall]
              [price "standard" 35 120; price "vip" 250 400])
           (concert_with [arena] [price "standard" 35 120])
           [("venues", JArr [arena; hall])] [("venues", JArr [arena])]
           [arena; hall] [arena]
           [price "standard" 35 120; price "vip" 250 400]
           [price "standard" 35 120]
           eq_refl eq_refl eq_refl eq_refl eq_refl eq_refl
           eq_refl eq_refl eq_refl eq_refl eq_refl eq_refl).
Defined.

Lemma attraction_projection_reads_chosen_classification_witness :
  formatAttractionAsText (Some (JObj (band_with [theatre; music])))
  = formatAttractionAsText (Some (JObj (band_with [music]))).
Proof.
  apply (attraction_projection_reads_chosen_classification
           (band_with [theatre; music]) (band_with [music])
           [theatre; music] [music]); try reflexivity;
    repeat constructor; discriminate.
Defined.

End FurtherExamples.
